(** * finance-go: the request/response core of [finance.go]

    A shallow embedding of the package-level state, the backend registry,
    the request builder, the crumb handshake and the call executor of
    [finance.go], together with the parts of Go's [fmt] and [net/url]
    that the file relies on.

    Conventions.
    - A Go [string] is a byte sequence: [string] of [ascii].
    - A Go [int] is a [Z]; no arithmetic is done on it in this file.
    - Package variables ([yCrumb], [LogLevel], [httpClient], [backends])
      live in a [World] record that every operation threads through.
    - The network, [http.NewRequest], [json.Unmarshal] and the [form]
      package are not part of [finance.go]; they are the fields of an
      environment record, which the examples instantiate with a stub
      transport (as a Go test would).
    - Goroutines run [GetBackend] one statement at a time under a
      scheduler; its accesses to the registry are all made under the
      mutex, so interleaving its statements is all that can happen. *)

From Stdlib Require Import ZArith Ascii DecimalString.
From stdpp Require Import gmap strings list sorting.

Open Scope Z_scope.

(** ** Byte strings *)

Module strs.

(** [strings.HasPrefix(s, "/")] and friends, for a one-byte prefix. *)
Definition HasPrefix1 (s : string) (c : ascii) : bool :=
  match s with
  | String c' _ => bool_decide (c' = c)
  | EmptyString => false
  end.

(** [strings.Contains(s, string(c))]. *)
Fixpoint ContainsByte (s : string) (c : ascii) : bool :=
  match s with
  | EmptyString => false
  | String c' r => bool_decide (c' = c) || ContainsByte r c
  end.

(** [strings.Cut(s, string(sep))] without the [found] flag: the text
    before the first [sep] and the text after it; [(s, "")] when [sep]
    does not occur. *)
Fixpoint Cut (s : string) (sep : ascii) : string * string :=
  match s with
  | EmptyString => (EmptyString, EmptyString)
  | String c r =>
      if bool_decide (c = sep) then (EmptyString, r)
      else let '(before, after) := Cut r sep in (String c before, after)
  end.

(** [strings.Split(s, string(sep))]. *)
Fixpoint Split (s : string) (sep : ascii) : list string :=
  match s with
  | EmptyString => [EmptyString]
  | String c r =>
      if bool_decide (c = sep) then EmptyString :: Split r sep
      else match Split r sep with
           | h :: t => String c h :: t
           | [] => [String c EmptyString]
           end
  end.

(** [strings.Join(l, string(sep))]. *)
Fixpoint Join (l : list string) (sep : ascii) : string :=
  match l with
  | [] => EmptyString
  | [x] => x
  | x :: r => x +:+ String sep (Join r sep)
  end.

End strs.

(** ** [fmt]: the verbs used by [finance.go] *)

Module fmt.

Inductive arg :=
| Int (n : Z)
| Str (s : string).

(** [strconv.Itoa]. *)
Definition itoa (n : Z) : string := NilZero.string_of_int (Z.to_int n).

Definition type_name (a : arg) : string :=
  match a with Int _ => "int" | Str _ => "string" end.

Definition value (a : arg) : string :=
  match a with Int n => itoa n | Str s => s end.

(** Go's report of an operand that does not fit its verb:
    [%!verb(type=value)]. *)
Definition bad_verb (verb : ascii) (a : arg) : string :=
  "%!" +:+ String verb ("(" +:+ type_name a +:+ "=" +:+ value a +:+ ")").

(** One verb applied to one operand.  [%v] prints the operand in its
    default format, [%d] wants an integer and [%s] a string.  [%w] is
    a verb of [Errorf] only, where it prints like [%v]. *)
Definition verb (errorf : bool) (c : ascii) (a : arg) : string :=
  match c, a with
  | "v"%char, _ => value a
  | "d"%char, Int n => itoa n
  | "s"%char, Str s => s
  | "w"%char, _ => if errorf then value a else bad_verb c a
  | _, _ => bad_verb c a
  end.

Fixpoint extra (args : list arg) : string :=
  match args with
  | [] => ""
  | [a] => type_name a +:+ "=" +:+ value a
  | a :: r => type_name a +:+ "=" +:+ value a +:+ ", " +:+ extra r
  end.

(** The formatting loop shared by [Sprintf] and [Errorf], for the
    verbs above and [%%]. *)
Definition report_extra (args : list arg) : string :=
  match args with
  | [] => ""
  | _ => "%!(EXTRA " +:+ extra args +:+ ")"
  end.

Fixpoint format_args (errorf : bool) (format : string) (args : list arg) : string :=
  match format with
  | EmptyString => report_extra args
  | String "%" EmptyString => "%!(NOVERB)" +:+ report_extra args
  | String "%" (String "%" rest) => String "%" (format_args errorf rest args)
  | String "%" (String c rest) =>
      match args with
      | [] => "%!" +:+ String c ("(MISSING)" +:+ format_args errorf rest [])
      | a :: args' => verb errorf c a +:+ format_args errorf rest args'
      end
  | String c rest => String c (format_args errorf rest args)
  end.

(** [fmt.Sprintf(format, args...)]. *)
Definition Sprintf (format : string) (args : list arg) : string :=
  format_args false format args.

End fmt.

(** ** Errors

    A Go [error] value met in this file is one of:
    - an error made by a library ([net/http], [io], [encoding/json]),
      of that library's own types;
    - a [*RemoteError];
    - a [*fmt.wrapError], made by [fmt.Errorf] with a [%w] verb. *)

Inductive lib := net_http | io_read | encoding_json.

#[export] Instance lib_eq_dec : EqDecision lib.
Proof. solve_decision. Defined.

(** [type RemoteError struct { Msg string; StatusCode int; Body string }] *)
Record RemoteError := {
  Msg : string;
  StatusCode : Z;
  Body : string;
}.

Inductive error :=
| LibError (origin : lib) (text : string)
| Remote (e : RemoteError)
| Wrapped (msg : string) (inner : error).

Module RemoteErr.

(** [func (e *RemoteError) Error() string] *)
Definition Error (e : RemoteError) : string :=
  fmt.Sprintf "status: %d, detail: %s" [fmt.Int (StatusCode e); fmt.Str (Msg e)].

End RemoteErr.

(** The [Error()] method of an [error] value. *)
Definition error_text (e : error) : string :=
  match e with
  | LibError _ text => text
  | Remote r => RemoteErr.Error r
  | Wrapped msg _ => msg
  end.

(** The type assertion of an [error] to a [RemoteError] pointer. *)
Definition is_RemoteError (e : error) : bool :=
  match e with Remote _ => true | _ => false end.

(** [fmt.Errorf(format, err)] for a format with one [%w] verb: the
    message is formatted with the operand's [Error()] text, and the
    operand is kept as the wrapped error. *)
Definition Errorf (format : string) (err : error) : error :=
  Wrapped (fmt.format_args true format [fmt.Str (error_text err)]) err.


(** ** [net/url]: query strings

    [Do] calls [req.URL.Query()], [Values.Add] and [Values.Encode].
    Their model follows the Go standard library (Go 1.17 and later, where
    a semicolon is no longer a separator). *)

Module url.

(** [type Values map[string][]string] *)
Abbreviation Values := (gmap string (list string)).

(** [v[key]]: the values of a key, [nil] for a missing key. *)
Definition index (v : Values) (key : string) : list string :=
  default [] (v !! key).

Definition in_range (lo hi c : ascii) : bool :=
  (N_of_ascii lo <=? N_of_ascii c)%N && (N_of_ascii c <=? N_of_ascii hi)%N.

(** [func ishex(c byte) bool] *)
Definition ishex (c : ascii) : bool :=
  in_range "0" "9" c || in_range "a" "f" c || in_range "A" "F" c.

(** [func unhex(c byte) byte] *)
Definition unhex (c : ascii) : N :=
  if in_range "0" "9" c then N_of_ascii c - N_of_ascii "0"
  else if in_range "a" "f" c then N_of_ascii c - N_of_ascii "a" + 10
  else if in_range "A" "F" c then N_of_ascii c - N_of_ascii "A" + 10
  else 0.

(** [const upperhex = "0123456789ABCDEF"], indexed. *)
Definition upperhex (i : N) : ascii :=
  default "0"%char (String.get (N.to_nat i) "0123456789ABCDEF").

(** [shouldEscape(c, encodeQueryComponent)]: only the unreserved
    characters of RFC 3986, section 2.3, are left alone. *)
Definition shouldEscape (c : ascii) : bool :=
  if in_range "a" "z" c || in_range "A" "Z" c || in_range "0" "9" c then false
  else match c with
       | "-"%char | "_"%char | "."%char | "~"%char => false
       | _ => true
       end.

(** What [escape(s, encodeQueryComponent)] writes for one byte. *)
Definition escape_byte (c : ascii) : string :=
  if bool_decide (c = " "%char) then "+"
  else if shouldEscape c then
    String "%" (String (upperhex (N.shiftr (N_of_ascii c) 4))
               (String (upperhex (N.land (N_of_ascii c) 15)) EmptyString))
  else String c EmptyString.

(** [func QueryEscape(s string) string] *)
Fixpoint QueryEscape (s : string) : string :=
  match s with
  | EmptyString => EmptyString
  | String c r => escape_byte c +:+ QueryEscape r
  end.

(** [func QueryUnescape(s string) (string, error)].  Go validates the
    escapes in a first pass and decodes in a second one; here [None] is
    the [EscapeError] of the first pass. *)
Fixpoint QueryUnescape (s : string) : option string :=
  match s with
  | EmptyString => Some EmptyString
  | String "%" (String a (String b r)) =>
      if ishex a && ishex b
      then String (ascii_of_N (N.lor (N.shiftl (unhex a) 4) (unhex b))) <$> QueryUnescape r
      else None
  | String "%" _ => None
  | String "+" r => String " " <$> QueryUnescape r
  | String c r => String c <$> QueryUnescape r
  end.

(** [func (v Values) Add(key, value string)]:
    [v[key] = append(v[key], value)]. *)
Definition Add (v : Values) (key value : string) : Values :=
  <[key := index v key ++ [value]]> v.

(** The body of the loop of [parseQuery] for one setting [key]: a
    setting with a semicolon, an empty setting and a setting whose key
    or value does not unescape are skipped ([continue]). *)
Definition parseSetting (m : Values) (key : string) : Values :=
  if strs.ContainsByte key ";" then m
  else if bool_decide (key = EmptyString) then m
  else
    let '(key, value) := strs.Cut key "=" in
    match QueryUnescape key with
    | None => m
    | Some key =>
        match QueryUnescape value with
        | None => m
        | Some value => Add m key value
        end
    end.

(** [func ParseQuery(query string) (Values, error)], the map only: the
    loop [for query != "" { key, query, _ = strings.Cut(query, "&") ... }]
    visits the settings between ampersands from left to right. *)
Definition ParseQuery (query : string) : Values :=
  foldl parseSetting ∅ (strs.Split query "&").

(** The keys of a map, sorted by [sort.Strings] (byte-wise
    lexicographic order). *)
Definition sorted_keys (v : Values) : list string :=
  merge_sort String.le (map fst (map_to_list v)).

(** The settings [Encode] writes for one key. *)
Definition encodeKey (v : Values) (k : string) : list string :=
  map (fun x => QueryEscape k +:+ String "=" (QueryEscape x)) (index v k).

(** [func (v Values) Encode() string]: keys in sorted order, the values
    of a key in their order, settings joined by ampersands. *)
Definition Encode (v : Values) : string :=
  strs.Join (flat_map (encodeKey v) (sorted_keys v)) "&".


(** The setting [Encode] writes for a pair, as [parseQuery] reads it. *)
Definition setting (k x : string) : string :=
  QueryEscape k +:+ String "=" (QueryEscape x).

(** Adding a list of pairs, one after the other. *)
Definition add_pairs (m : Values) (l : list (string * string)) : Values :=
  foldl (fun m kv => Add m kv.1 kv.2) m l.

(** The pairs of a map in the order [Encode] writes them. *)
Definition pairs_of (v : Values) (keys : list string) : list (string * string) :=
  flat_map (fun k => map (pair k) (index v k)) keys.

(** A parsed URL, with the fields [finance.go] reads or writes. *)
Record URL := {
  Scheme : string;
  Host : string;
  Path : string;
  RawQuery : string;
}.

(** [func (u *URL) Query() Values]: parses [RawQuery] and silently
    discards malformed settings. *)
Definition Query (u : URL) : Values := ParseQuery (RawQuery u).

Definition set_RawQuery (u : URL) (q : string) : URL :=
  {| Scheme := Scheme u; Host := Host u; Path := Path u; RawQuery := q |}.

End url.

(** ** [net/http]: requests, responses and the client *)

Module http.

(** A [context.Context], by name. *)
Definition Context := nat.

(** A [*http.Client], by address.  Every client in this model is live
    (not [nil]). *)
Definition Client := nat.

(** [type Header map[string][]string] *)
Abbreviation Header := (gmap string (list string)).

(** [func (h Header) Set(key, value string)], for a key in canonical form. *)
Definition Header_Set (h : Header) (key value : string) : Header :=
  <[key := [value]]> h.

(** [type Request struct] *)
Record Request := {
  Method : string;
  URL : url.URL;
  Hdr : Header;
  Ctx : option Context;
}.

(** [func (r *Request) WithContext(ctx context.Context) *Request] *)
Definition WithContext (r : Request) (ctx : Context) : Request :=
  {| Method := Method r; URL := URL r; Hdr := Hdr r; Ctx := Some ctx |}.

Definition set_Header (r : Request) (h : Header) : Request :=
  {| Method := Method r; URL := URL r; Hdr := h; Ctx := Ctx r |}.

Definition set_URL (r : Request) (u : url.URL) : Request :=
  {| Method := Method r; URL := u; Hdr := Hdr r; Ctx := Ctx r |}.

(** A response body is a stream: reading it to the end gives its bytes,
    or fails with a read error. *)
Inductive body :=
| Bytes (b : string)
| Broken (text : string).

(** [type Response struct] *)
Record Response := {
  StatusCode : Z;
  Body : body;
}.

End http.

(** [ioutil.ReadAll(r)] on a response body. *)
Definition ReadAll (b : http.body) : string * option error :=
  match b with
  | http.Bytes data => (data, None)
  | http.Broken text => (EmptyString, Some (LibError io_read text))
  end.

(** ** The environment

    What [finance.go] calls and this repository does not define:
    - the network behind the [Do] method of an [http.Client]: a state
      [Transport] and a round trip that answers a request of a client
      with a response or with the text of a [*url.Error];
    - [http.NewRequest(method, url, nil)], which parses [url] and
      validates [method], and fails with the text of its error;
    - [json.Unmarshal(data, v)] on a destination of type [Dest]: the
      destination after the call, and the text of the decoder's error if
      it fails;
    - [form.Values] of the [form] package, with [Empty] and [Encode]. *)
Record Env := {
  Transport : Type;
  client_Do : http.Client -> http.Request -> Transport -> Transport * (string + http.Response);
  http_NewRequest : string -> string -> string + http.Request;
  Dest : Type;
  json_Unmarshal : string -> Dest -> Dest * option string;
  FormValues : Type;
  form_Empty : FormValues -> bool;
  form_Encode : FormValues -> string;
}.

(** ** Package constants and types *)

(** [type SupportedBackend string] *)
Definition SupportedBackend := string.

Definition YFinBackend : SupportedBackend := "yahoo".
Definition BATSBackend : SupportedBackend := "bats".
Definition BATSURL : string := "".
Definition yFinURL : string := "https://query2.finance.yahoo.com".
Definition batsURL : string := "".

(** [type BackendConfiguration struct]; the field [Type] is [Type_] here. *)
Record BackendConfiguration := {
  Type_ : SupportedBackend;
  URL : string;
  HTTPClient : http.Client;
}.

#[export] Instance BackendConfiguration_eq_dec : EqDecision BackendConfiguration.
Proof. solve_decision. Defined.

(** A value of the interface [Backend]: [nil], a pointer to a
    [BackendConfiguration] in the heap, or some other implementation
    (a test double installed with [SetBackend]). *)
Inductive Backend :=
| nil_backend
| config_ptr (addr : nat)
| other_backend (name : nat).

#[export] Instance Backend_eq_dec : EqDecision Backend.
Proof. solve_decision. Defined.

(** [sync.RWMutex]: the number of readers holding it, and whether a
    writer holds it. *)
Record RWMutex := {
  readers : nat;
  writer : bool;
}.

(** [type Backends struct { YFin, Bats Backend; mu sync.RWMutex }] *)
Record Backends := {
  YFin : Backend;
  Bats : Backend;
  mu : RWMutex;
}.

(** What is written to the logger and what goes over the wire, in the
    order it happens. *)
Inductive Event :=
| Printf (format : string) (operands : list fmt.arg)
| RoundTrip (client : http.Client) (req : http.Request)
| Unmarshal (data : string).

(** ** State passing *)

(** A computation on a state [S] that returns an [A]. *)
Definition M (S A : Type) : Type := S -> S * A.

Definition ret {S A} (a : A) : M S A := fun w => (w, a).

Definition bind {S A B} (m : M S A) (k : A -> M S B) : M S B :=
  fun w => let '(w1, a) := m w in k a w1.

Declare Scope go_scope.
Delimit Scope go_scope with go.
Notation "x <~ m ;; k" := (bind m (fun x => k))
  (at level 100, m at next level, right associativity) : go_scope.
Notation "m ;;; k" := (bind m (fun _ => k))
  (at level 100, right associativity) : go_scope.

(** The line feed that ends each log format. *)
Definition nl : string := String (ascii_of_nat 10) EmptyString.

Section finance.

Variable E : Env.

(** The package variables of [finance.go], the heap of backend
    configurations, the network and the trace of events. *)
Record World := {
  LogLevel : Z;
  httpClient : http.Client;
  backends : Backends;
  heap : list BackendConfiguration;
  yCrumb : string;
  net : Transport E;
  trace : list Event;
}.

Definition set_httpClient (c : http.Client) (w : World) : World :=
  {| LogLevel := LogLevel w; httpClient := c; backends := backends w;
     heap := heap w; yCrumb := yCrumb w; net := net w; trace := trace w |}.

Definition set_backends (b : Backends) (w : World) : World :=
  {| LogLevel := LogLevel w; httpClient := httpClient w; backends := b;
     heap := heap w; yCrumb := yCrumb w; net := net w; trace := trace w |}.

Definition set_heap (h : list BackendConfiguration) (w : World) : World :=
  {| LogLevel := LogLevel w; httpClient := httpClient w; backends := backends w;
     heap := h; yCrumb := yCrumb w; net := net w; trace := trace w |}.

Definition set_yCrumb (c : string) (w : World) : World :=
  {| LogLevel := LogLevel w; httpClient := httpClient w; backends := backends w;
     heap := heap w; yCrumb := c; net := net w; trace := trace w |}.

Definition set_net (n : Transport E) (w : World) : World :=
  {| LogLevel := LogLevel w; httpClient := httpClient w; backends := backends w;
     heap := heap w; yCrumb := yCrumb w; net := n; trace := trace w |}.

Definition emit (ev : Event) (w : World) : World :=
  {| LogLevel := LogLevel w; httpClient := httpClient w; backends := backends w;
     heap := heap w; yCrumb := yCrumb w; net := net w; trace := trace w ++ [ev] |}.

(** [if LogLevel > threshold { Logger.Printf(format, operands...) }] *)
Definition logf (threshold : Z) (format : string) (operands : list fmt.arg) : M World unit :=
  fun w => if LogLevel w >? threshold then (emit (Printf format operands) w, tt) else (w, tt).

(** [client.Do(req)]: one round trip; an error is a [*url.Error]. *)
Definition Client_Do (client : http.Client) (req : http.Request) : M World (error + http.Response) :=
  fun w =>
    let '(n, r) := client_Do E client req (net w) in
    (set_net n (emit (RoundTrip client req) w),
     match r with
     | inl text => inl (LibError net_http text)
     | inr res => inr res
     end).

(** [http.NewRequest(method, url, nil)] *)
Definition http_NewRequest' (method target : string) : error + http.Request :=
  match http_NewRequest E method target with
  | inl text => inl (LibError net_http text)
  | inr req => inr req
  end.

(** [json.Unmarshal(data, v)] *)
Definition json_Unmarshal' (data : string) (v : Dest E) : M World (Dest E * option error) :=
  fun w =>
    let '(v', r) := json_Unmarshal E data v in
    (emit (Unmarshal data) w, (v', LibError encoding_json <$> r)).

(** *** The registry *)

(** [func SetHTTPClient(client *http.Client)] *)
Definition SetHTTPClient (client : http.Client) : M World unit :=
  fun w => (set_httpClient client w, tt).

Definition set_YFin (b : Backend) (w : World) : World :=
  set_backends {| YFin := b; Bats := Bats (backends w); mu := mu (backends w) |} w.

Definition set_Bats (b : Backend) (w : World) : World :=
  set_backends {| YFin := YFin (backends w); Bats := b; mu := mu (backends w) |} w.

Definition set_mu (m : RWMutex) (w : World) : World :=
  set_backends {| YFin := YFin (backends w); Bats := Bats (backends w); mu := m |} w.

(** [&BackendConfiguration{...}]: a fresh cell at the end of the heap. *)
Definition alloc (c : BackendConfiguration) : M World Backend :=
  fun w => (set_heap (heap w ++ [c]) w, config_ptr (length (heap w))).

(** The default configuration [GetBackend] builds for an identifier. *)
Definition default_config (backend : SupportedBackend) (base : string) (w : World)
  : BackendConfiguration :=
  {| Type_ := backend; URL := base; HTTPClient := httpClient w |}.

(** [func GetBackend(backend SupportedBackend) Backend], run by one
    goroutine on its own: each lock is free when it is taken and is
    released before the return, so the mutex is left as it was. *)
Definition GetBackend (backend : SupportedBackend) : M World Backend :=
  fun w =>
    if bool_decide (backend = YFinBackend) then
      let ret_ := YFin (backends w) in
      if bool_decide (ret_ <> nil_backend) then (w, ret_)
      else
        let '(w1, b) := alloc (default_config backend yFinURL w) w in
        (set_YFin b w1, b)
    else if bool_decide (backend = BATSBackend) then
      let ret_ := Bats (backends w) in
      if bool_decide (ret_ <> nil_backend) then (w, ret_)
      else
        let '(w1, b) := alloc (default_config backend batsURL w) w in
        (set_Bats b w1, b)
    else (w, nil_backend).

(** [func SetBackend(backend SupportedBackend, b Backend)] *)
Definition SetBackend (backend : SupportedBackend) (b : Backend) : M World unit :=
  fun w =>
    if bool_decide (backend = YFinBackend) then (set_YFin b w, tt)
    else if bool_decide (backend = BATSBackend) then (set_Bats b w, tt)
    else (w, tt).

(** *** [GetBackend] run by several goroutines

    A goroutine in [GetBackend] is at one of the statements below; a
    step runs one statement.  [RLock] waits while a writer holds the
    mutex, [Lock] waits while anyone holds it. *)
Inductive pc :=
| at_switch
| at_read
| at_RUnlock (ret_ : Backend)
| at_check (ret_ : Backend)
| at_Lock
| at_store
| at_return (ret_ : Backend)
| returned (result : Backend).

Record Goroutine := {
  resolving : SupportedBackend;
  at_ : pc;
}.

Definition goto (g : Goroutine) (p : pc) : Goroutine :=
  {| resolving := resolving g; at_ := p |}.

(** The registry field of an identifier, and the base URL known for it. *)
Definition field (backend : SupportedBackend) (w : World) : Backend :=
  if bool_decide (backend = YFinBackend) then YFin (backends w) else Bats (backends w).

Definition set_field (backend : SupportedBackend) (b : Backend) (w : World) : World :=
  if bool_decide (backend = YFinBackend) then set_YFin b w else set_Bats b w.

Definition base_of (backend : SupportedBackend) : string :=
  if bool_decide (backend = YFinBackend) then yFinURL else batsURL.

(** One statement of a goroutine; [None] when it waits for the mutex or
    has returned. *)
Definition goroutine_step (g : Goroutine) (w : World) : option (World * Goroutine) :=
  let m := mu (backends w) in
  match at_ g with
  | at_switch =>
      if bool_decide (resolving g = YFinBackend) || bool_decide (resolving g = BATSBackend)
      then
        (* backends.mu.RLock() *)
        if writer m then None
        else Some (set_mu {| readers := S (readers m); writer := writer m |} w, goto g at_read)
      else Some (w, goto g (returned nil_backend))
  | at_read =>
      (* ret := backends.YFin, or backends.Bats *)
      Some (w, goto g (at_RUnlock (field (resolving g) w)))
  | at_RUnlock ret_ =>
      (* backends.mu.RUnlock() *)
      Some (set_mu {| readers := pred (readers m); writer := writer m |} w, goto g (at_check ret_))
  | at_check ret_ =>
      (* if ret != nil { return ret } *)
      if bool_decide (ret_ <> nil_backend) then Some (w, goto g (returned ret_))
      else Some (w, goto g at_Lock)
  | at_Lock =>
      (* backends.mu.Lock(); defer backends.mu.Unlock() *)
      if writer m || negb (Nat.eqb (readers m) 0) then None
      else Some (set_mu {| readers := readers m; writer := true |} w, goto g at_store)
  | at_store =>
      (* backends.YFin = &BackendConfiguration{backend, yFinURL, httpClient},
         or backends.Bats with batsURL *)
      let '(w1, b) := alloc (default_config (resolving g) (base_of (resolving g)) w) w in
      Some (set_field (resolving g) b w1, goto g (at_return b))
  | at_return ret_ =>
      (* return backends.YFin, or backends.Bats; then the deferred Unlock *)
      Some (set_mu {| readers := readers m; writer := false |} w, goto g (returned ret_))
  | returned _ => None
  end.

(** The scheduler picks goroutine [i]; a goroutine that cannot move
    leaves the system as it is. *)
Definition schedule1 (i : nat) (sys : World * list Goroutine) : World * list Goroutine :=
  let '(w, gs) := sys in
  match gs !! i with
  | None => sys
  | Some g =>
      match goroutine_step g w with
      | None => sys
      | Some (w', g') => (w', <[i := g']> gs)
      end
  end.

(** A run under a schedule, a list of picks. *)
Definition run (schedule : list nat) (sys : World * list Goroutine) : World * list Goroutine :=
  foldl (fun s i => schedule1 i s) sys schedule.

(** The result of a goroutine that has returned. *)
Definition result_of (g : Goroutine) : option Backend :=
  match at_ g with returned b => Some b | _ => None end.

(** The configuration behind a backend value. *)
Definition deref (w : World) (b : Backend) : option BackendConfiguration :=
  match b with config_ptr a => heap w !! a | _ => None end.

(** *** The request builder *)

(** [func (s *BackendConfiguration) NewRequest(method, path string,
    ctx *context.Context)], returning the request or the error. *)
Definition NewRequest (s : BackendConfiguration) (method path : string)
    (ctx : option http.Context) : M World (error + http.Request) :=
  (let path := if negb (strs.HasPrefix1 path "/") then "/" +:+ path else path in
   let path := URL s +:+ path in
   match http_NewRequest' method path with
   | inl err =>
       logf 0 ("Cannot create api request: %v" +:+ nl) [fmt.Str (error_text err)];;;
       ret (inl err)
   | inr req =>
       ret (inr (match ctx with
                 | Some c => http.WithContext req c
                 | None => req
                 end))
   end)%go.

(** What [NewRequest] makes of a target URL: the request that
    [http.NewRequest] builds from it, bound to the context if there is
    one, or the error of [http.NewRequest]. *)
Definition request_for (method target : string) (ctx : option http.Context)
  : error + http.Request :=
  match http_NewRequest' method target with
  | inl err => inl err
  | inr req => inr (match ctx with
                    | Some c => http.WithContext req c
                    | None => req
                    end)
  end.

(** *** The crumb handshake *)

(** [func setBrowserHeaders(req *http.Request)] *)
Definition setBrowserHeaders (req : http.Request) : http.Request :=
  let h := http.Header_Set (http.Hdr req) "Accept"
             "text/html,application/xhtml+xml,application/xml;q=0.9,*/*" in
  let h := http.Header_Set h "User-Agent"
             "Mozilla/5.0 (X11; Linux x86_64) AppleWebKit/537.36 (KHTML, like Gecko) Chrome/113.0.0.0 Safari/537.36" in
  http.set_Header req h.

Definition cookie_url : string := "https://finance.yahoo.com/".
Definition crumb_url : string := "https://query2.finance.yahoo.com/v1/test/getcrumb".

(** [func getYahooCrumb(client *http.Client) (string, error)].  The body
    of the first response is drained and what the draining returns is
    dropped ([io.Copy(ioutil.Discard, resp.Body)]); neither response's
    status code is read. *)
Definition getYahooCrumb (client : http.Client) : M World (string * option error) :=
  (match http_NewRequest' "GET" cookie_url with
   | inl err => ret (EmptyString, Some err)
   | inr req =>
       let req := setBrowserHeaders req in
       resp <~ Client_Do client req;;
       match resp with
       | inl err => ret (EmptyString, Some err)
       | inr resp =>
           let _ := ReadAll (http.Body resp) in
           match http_NewRequest' "GET" crumb_url with
           | inl err => ret (EmptyString, Some err)
           | inr req =>
               let req := setBrowserHeaders req in
               resp <~ Client_Do client req;;
               match resp with
               | inl err => ret (EmptyString, Some err)
               | inr resp =>
                   match ReadAll (http.Body resp) with
                   | (_, Some err) => ret (EmptyString, Some err)
                   | (b, None) => ret (b, None)
                   end
               end
           end
       end
   end)%go.

(** The first GET of the handshake as the network sees it: the world
    after the round trip and what the client returned; [None] when the
    request could not be built. *)
Definition handshake_step1 (client : http.Client) (w : World)
  : option (World * (error + http.Response)) :=
  match http_NewRequest' "GET" cookie_url with
  | inl _ => None
  | inr req => Some (Client_Do client (setBrowserHeaders req) w)
  end.

(** The second GET, sent once the first one has a response. *)
Definition handshake_step2 (client : http.Client) (w : World)
  : option (World * (error + http.Response)) :=
  match handshake_step1 client w with
  | Some (w1, inr _) =>
      match http_NewRequest' "GET" crumb_url with
      | inl _ => None
      | inr req => Some (Client_Do client (setBrowserHeaders req) w1)
      end
  | _ => None
  end.

(** *** The call executor *)

(** What a call of [Do] leaves behind: the returned [error] ([None] for
    [nil]), the request (a pointer in Go: [Do] rewrites its query) and
    the destination [v] ([None] for a [nil] destination). *)
Record DoResult := {
  err : option error;
  req_out : http.Request;
  v_out : option (Dest E);
}.

(** Lines 258-270 of [Do]: fetch the crumb if the cache is empty, and
    add it to the query of the request.  [inl] is the early return. *)
Definition addCrumb (s : BackendConfiguration) (req : http.Request)
  : M World (error + http.Request) :=
  (if bool_decide (Type_ s = YFinBackend) then
     cached <~ (fun w => (w, yCrumb w));;
     failed <~ (if bool_decide (cached = EmptyString) then
                  r <~ getYahooCrumb (HTTPClient s);;
                  match r with
                  | (_, Some err) => ret (Some (Errorf "get yahoo crumb err: %w" err))
                  | (crumb, None) => (fun w => (set_yCrumb crumb w, None))
                  end
                else ret None);;
     match failed with
     | Some err => ret (inl err)
     | None =>
         crumb <~ (fun w => (w, yCrumb w));;
         let query := url.Query (http.URL req) in
         let query := url.Add query "crumb" crumb in
         ret (inr (http.set_URL req (url.set_RawQuery (http.URL req) (url.Encode query))))
     end
   else ret (inr req))%go.

(** The request as [Do] sends it when the crumb is [crumb]: for the
    yahoo backend the query is parsed, the crumb added and the whole
    encoded again; for any other backend the request is sent as it is. *)
Definition with_crumb (s : BackendConfiguration) (req : http.Request) (crumb : string)
  : http.Request :=
  if bool_decide (Type_ s = YFinBackend) then
    http.set_URL req
      (url.set_RawQuery (http.URL req)
         (url.Encode (url.Add (url.Query (http.URL req)) "crumb" crumb)))
  else req.

(** The fixed message of a [RemoteError]. *)
Definition upstream_msg : string := "error response recieved from upstream api".

(** Lines 284-313 of [Do]: read the body, classify the status, decode. *)
Definition handleResponse (res : http.Response) (req : http.Request) (v : option (Dest E))
  : M World DoResult :=
  (match ReadAll (http.Body res) with
   | (_, Some err) =>
       logf 0 ("Cannot parse response: %v" +:+ nl) [fmt.Str (error_text err)];;;
       ret {| err := Some err; req_out := req; v_out := v |}
   | (resBody, None) =>
       if http.StatusCode res >=? 400 then
         logf 0 ("API error: %q" +:+ nl) [fmt.Str resBody];;;
         ret {| err := Some (Remote {| Msg := upstream_msg;
                                       StatusCode := http.StatusCode res;
                                       Body := resBody |});
                req_out := req; v_out := v |}
       else
         logf 2 ("API response: %q" +:+ nl) [fmt.Str resBody];;;
         match v with
         | Some dest =>
             r <~ json_Unmarshal' resBody dest;;
             ret {| err := snd r; req_out := req; v_out := Some (fst r) |}
         | None => ret {| err := None; req_out := req; v_out := None |}
         end
   end)%go.

(** Lines 252-254 of [Do]: the request line of the log. *)
Definition logRequest (req : http.Request) : M World unit :=
  logf 1 ("Requesting %v %v%v" +:+ nl)
    [fmt.Str (http.Method req); fmt.Str (url.Host (http.URL req));
     fmt.Str (url.Path (http.URL req))].

(** [func (s *BackendConfiguration) Do(req *http.Request, v interface{}) error].
    The elapsed time that the second log line prints is not modelled:
    the line is recorded without its operand. *)
Definition Do (s : BackendConfiguration) (req : http.Request) (v : option (Dest E))
  : M World DoResult :=
  (logRequest req;;;
   r <~ addCrumb s req;;
   match r with
   | inl err => ret {| err := Some err; req_out := req; v_out := v |}
   | inr req =>
       res <~ Client_Do (HTTPClient s) req;;
       logf 2 ("Completed in %v" +:+ nl) [];;;
       match res with
       | inl err =>
           logf 0 ("Request to api failed: %v" +:+ nl) [fmt.Str (error_text err)];;;
           ret {| err := Some err; req_out := req; v_out := v |}
       | inr res => handleResponse res req v
       end
   end)%go.

(** The response that a call of [Do] receives, if it gets that far: the
    handshake (when one is due) went through, the round trip of the
    request gave a response, and its body was read to the end.  The
    world is the one in which the response has arrived, the request is
    the one that was sent. *)
Definition received (s : BackendConfiguration) (req : http.Request) (w : World)
  : option (World * http.Request * Z * string) :=
  match addCrumb s req (logRequest req w).1 with
  | (w1, inr req1) =>
      match Client_Do (HTTPClient s) req1 w1 with
      | (w2, inr res) =>
          match ReadAll (http.Body res) with
          | (body, None) => Some (w2, req1, http.StatusCode res, body)
          | (_, Some _) => None
          end
      | (_, inl _) => None
      end
  | (_, inl _) => None
  end.

(** [func (s *BackendConfiguration) Call(path string, form *form.Values,
    ctx *context.Context, v interface{}) error] *)
Definition Call (s : BackendConfiguration) (path : string) (form : option (FormValues E))
    (ctx : option http.Context) (v : option (Dest E)) : M World (option error * option (Dest E)) :=
  (let path := match form with
               | Some f => if negb (form_Empty E f) then path +:+ "?" +:+ form_Encode E f else path
               | None => path
               end in
   r <~ NewRequest s "GET" path ctx;;
   match r with
   | inl e => ret (Some e, v)
   | inr req =>
       d <~ Do s req v;;
       ret (err d, v_out d)
   end)%go.

(** *** Programs that use the package

    A call of one of the exported functions; a program is a sequence of
    such calls.  These are all the statements that can reach the package
    variables: [yCrumb], [backends] and [httpClient] are not exported. *)
Inductive api_call :=
| call_SetHTTPClient (client : http.Client)
| call_GetBackend (backend : SupportedBackend)
| call_SetBackend (backend : SupportedBackend) (b : Backend)
| call_NewRequest (s : BackendConfiguration) (method path : string) (ctx : option http.Context)
| call_Do (s : BackendConfiguration) (req : http.Request) (v : option (Dest E))
| call_Call (s : BackendConfiguration) (path : string) (form : option (FormValues E))
    (ctx : option http.Context) (v : option (Dest E)).

(** The effect of a call on the world; what it returns is dropped. *)
Definition run_call (c : api_call) : M World unit :=
  (match c with
   | call_SetHTTPClient client => SetHTTPClient client
   | call_GetBackend backend => GetBackend backend;;; ret tt
   | call_SetBackend backend b => SetBackend backend b
   | call_NewRequest s method path ctx => NewRequest s method path ctx;;; ret tt
   | call_Do s req v => Do s req v;;; ret tt
   | call_Call s path form ctx v => Call s path form ctx v;;; ret tt
   end)%go.

Fixpoint run_calls (calls : list api_call) : M World unit :=
  (match calls with
   | [] => ret tt
   | c :: rest => run_call c;;; run_calls rest
   end)%go.

(** The URL that [NewRequest] builds for a path. *)
Definition target (s : BackendConfiguration) (path : string) : string :=
  URL s +:+ (if negb (strs.HasPrefix1 path "/") then "/" +:+ path else path).

(** The path that [Call] hands to [NewRequest]. *)
Definition call_path (path : string) (form : option (FormValues E)) : string :=
  match form with
  | Some f => if negb (form_Empty E f) then path +:+ "?" +:+ form_Encode E f else path
  | None => path
  end.

(** The round trips a call makes when the cache holds [crumb]: one for
    [Do], one for [Call] if the request can be built, none otherwise. *)
Definition sends (crumb : string) (c : api_call) : list (http.Client * http.Request) :=
  match c with
  | call_Do s req _ => [(HTTPClient s, with_crumb s req crumb)]
  | call_Call s path form ctx _ =>
      match request_for "GET" (target s (call_path path form)) ctx with
      | inr req => [(HTTPClient s, with_crumb s req crumb)]
      | inl _ => []
      end
  | _ => []
  end.

(** The requests sent over the wire, in order. *)
Definition round_trips (t : list Event) : list (http.Client * http.Request) :=
  omap (fun ev => match ev with RoundTrip c r => Some (c, r) | _ => None end) t.

(** The bodies handed to the JSON decoder, in order. *)
Definition decodes (t : list Event) : list string :=
  omap (fun ev => match ev with Unmarshal d => Some d | _ => None end) t.

End finance.

Arguments LogLevel {E} _.
Arguments httpClient {E} _.
Arguments backends {E} _.
Arguments heap {E} _.
Arguments yCrumb {E} _.
Arguments net {E} _.
Arguments trace {E} _.
Arguments err {E} _.
Arguments req_out {E} _.
Arguments v_out {E} _.

(** ** Vocabulary for runs of several goroutines *)

Section registry_vocabulary.

Variable E : Env.

(** The goroutines that enter [GetBackend] with the given identifiers. *)
Definition resolvers (ids : list SupportedBackend) : list Goroutine :=
  map (fun backend => {| resolving := backend; at_ := at_switch |}) ids.

Definition recognized (backend : SupportedBackend) : Prop :=
  backend = YFinBackend \/ backend = BATSBackend.

(** [b] points to the default configuration of [backend], with the HTTP
    client that was shared when the run started in [w0]. *)
Definition configured (w0 : World E) (backend : SupportedBackend) (w : World E) (b : Backend)
  : Prop :=
  deref E w b
  = Some {| Type_ := backend; URL := base_of backend; HTTPClient := httpClient w0 |}.

(** What holds of a goroutine at each statement, as far as [backend] is
    concerned. *)
Definition pc_inv (w0 : World E) (backend : SupportedBackend) (w : World E) (g : Goroutine)
  : Prop :=
  match at_ g with
  | at_switch => True
  | at_read | at_Lock | at_store => recognized (resolving g)
  | at_RUnlock r | at_check r =>
      recognized (resolving g)
      /\ (resolving g = backend -> r = nil_backend \/ configured w0 backend w r)
  | at_return r =>
      recognized (resolving g) /\ (resolving g = backend -> configured w0 backend w r)
  | returned r => resolving g = backend -> configured w0 backend w r
  end.

(** The invariant of a run that started in [w0] with the entry of
    [backend] empty. *)
Definition registry_inv (w0 : World E) (backend : SupportedBackend)
    (sys : World E * list Goroutine) : Prop :=
  httpClient sys.1 = httpClient w0
  /\ (field E backend sys.1 = nil_backend
      \/ configured w0 backend sys.1 (field E backend sys.1))
  /\ Forall (pc_inv w0 backend sys.1) sys.2.

End registry_vocabulary.

(** ** A stub environment

    The transport is a script: each round trip answers with the next
    entry, and with an error when the script has run out.  The request
    constructor splits the target at its first question mark and refuses
    a target with a space.  The destination is a struct with one integer
    field [x], and the decoder accepts exactly the objects
    [{"x":<digits>}]. *)
Module stub.

Definition script := list (string + http.Response).

Definition round_trip (_ : http.Client) (_ : http.Request) (s : script)
  : script * (string + http.Response) :=
  match s with
  | [] => ([], inl "EOF")
  | r :: s' => (s', r)
  end.

Definition new_request (method target : string) : string + http.Request :=
  if strs.ContainsByte target " " then inl "invalid character in URL"
  else
    let '(path, query) := strs.Cut target "?" in
    inr {| http.Method := method;
           http.URL := {| url.Scheme := ""; url.Host := ""; url.Path := path; url.RawQuery := query |};
           http.Hdr := ∅;
           http.Ctx := None |}.

Definition digit (c : ascii) : option Z :=
  if url.in_range "0" "9" c then Some (Z.of_N (N_of_ascii c - N_of_ascii "0")) else None.

Fixpoint digits (acc : Z) (s : string) : option (Z * string) :=
  match s with
  | String c r =>
      match digit c with
      | Some d => digits (10 * acc + d) r
      | None => Some (acc, s)
      end
  | EmptyString => Some (acc, s)
  end.

Definition quote : ascii := "034"%char.

Definition unmarshal (data : string) (x : Z) : Z * option string :=
  match data with
  | String "{" (String q1 (String "x" (String q2 (String ":" (String c r))))) =>
      if bool_decide (q1 = quote) && bool_decide (q2 = quote) && bool_decide (is_Some (digit c)) then
        match digits 0 (String c r) with
        | Some (n, "}"%string) => (n, None)
        | _ => (x, Some "invalid character")
        end
      else (x, Some "invalid character")
  | _ => (x, Some "unexpected end of JSON input")
  end.

Definition env : Env :=
  {| Transport := script;
     client_Do := round_trip;
     http_NewRequest := new_request;
     Dest := Z;
     json_Unmarshal := unmarshal;
     FormValues := list (string * string);
     form_Empty := fun f => bool_decide (f = []);
     form_Encode := fun f => strs.Join (map (fun kv => url.QueryEscape (fst kv) +:+ String "=" (url.QueryEscape (snd kv))) f) "&" |}.

(** A world with nothing configured and nothing cached, logging off. *)
Definition world (s : script) : World env :=
  Build_World env
    0 (* LogLevel *)
    1%nat (* httpClient *)
    {| YFin := nil_backend; Bats := nil_backend;
       mu := {| readers := 0; writer := false |} |}
    [] (* heap *)
    "" (* yCrumb *)
    s
    [] (* trace *).

Definition ok (status : Z) (b : string) : string + http.Response :=
  inr {| http.StatusCode := status; http.Body := http.Bytes b |}.

Definition yahoo : BackendConfiguration :=
  {| Type_ := YFinBackend; URL := yFinURL; HTTPClient := 1%nat |}.

Definition bats : BackendConfiguration :=
  {| Type_ := BATSBackend; URL := batsURL; HTTPClient := 1%nat |}.

(** The same world with the crumb [tok] in the cache. *)
Definition cached (s : script) : World env := set_yCrumb env "tok" (world s).

(** A request for two quotes. *)
Definition quote_request : http.Request :=
  {| http.Method := "GET";
     http.URL := {| url.Scheme := "https"; url.Host := "query2.finance.yahoo.com";
                    url.Path := "/v7/finance/quote"; url.RawQuery := "symbols=AAPL%2CMSFT" |};
     http.Hdr := ∅;
     http.Ctx := None |}.

(** A request with a setting whose value has a stray percent sign. *)
Definition noted_request : http.Request :=
  {| http.Method := "GET";
     http.URL := {| url.Scheme := "https"; url.Host := "query2.finance.yahoo.com";
                    url.Path := "/v7/finance/quote"; url.RawQuery := "symbols=AAPL&note=100%" |};
     http.Hdr := ∅;
     http.Ctx := None |}.

(** A request with a setting whose value has a semicolon. *)
Definition listed_request : http.Request :=
  {| http.Method := "GET";
     http.URL := {| url.Scheme := "https"; url.Host := "query2.finance.yahoo.com";
                    url.Path := "/v7/finance/quote"; url.RawQuery := "symbols=AAPL;MSFT&lang=en" |};
     http.Hdr := ∅;
     http.Ctx := None |}.

(** A program: resolve the backend, then two calls, the second through
    [Call]. *)
Definition two_calls : list (api_call env) :=
  [call_GetBackend env YFinBackend;
   call_Do env yahoo quote_request (Some 0);
   call_Call env yahoo "v7/finance/quote" (Some [("symbols", "AAPL")]) None None].

(** The first GET is answered with 200, the second with 404 and the
    body [Not Found]. *)
Definition not_found_script : script :=
  [ok 200 "<html>"; ok 404 "Not Found"].

(** Two goroutines resolve [yahoo]; each reads the empty entry before
    the other takes the write lock. *)
Definition two_resolvers : list Goroutine := resolvers [YFinBackend; YFinBackend].

Definition racy_schedule : list nat := [0; 0; 0; 0; 1; 1; 1; 1; 0; 0; 0; 1; 1; 1]%nat.

(** The body [{"x":1}]. *)
Definition x1 : string :=
  "{" +:+ String quote ("x" +:+ String quote ":1}").

End stub.


(** ** More of the package *)

(** [var YFinURL], with the value it is initialised with. *)
Definition YFinURL : string := "https://query2.finance.yahoo.com".

Section package_vocabulary.

Variable E : Env.

(** [func NewBackends(httpClient *http.Client) *Backends].  The exported
    variable [YFinURL] is read when the function runs: its value then is
    the first argument.  The result is a new [Backends] struct (with a
    mutex nobody holds); the registry of the package is another one. *)
Definition NewBackends (YFinURL_now : string) (client : http.Client) : M (World E) Backends :=
  (yfin <~ alloc E {| Type_ := YFinBackend; URL := YFinURL_now; HTTPClient := client |};;
   bats <~ alloc E {| Type_ := BATSBackend; URL := BATSURL; HTTPClient := client |};;
   ret {| YFin := yfin; Bats := bats; mu := {| readers := 0; writer := false |} |})%go.

(** An assignment to the exported variable [LogLevel]. *)
Definition set_LogLevel (level : Z) (w : World E) : World E :=
  Build_World E level (httpClient w) (backends w) (heap w) (yCrumb w) (net w) (trace w).

(** The lines written to the logger, in order. *)
Definition logs (t : list Event) : list (string * list fmt.arg) :=
  omap (fun ev => match ev with Printf f ops => Some (f, ops) | _ => None end) t.

(** What the request pipeline leaves alone between a world and a later
    one: the verbosity, the shared client, the registry and the heap;
    the trace only grows, and with the verbosity at zero or below no
    line is logged. *)
Definition pipeline_frame (w w' : World E) : Prop :=
  LogLevel w' = LogLevel w
  /\ httpClient w' = httpClient w
  /\ backends w' = backends w
  /\ heap w' = heap w
  /\ (exists evs, trace w' = trace w ++ evs)
  /\ (LogLevel w <= 0 -> logs (trace w') = logs (trace w)).

(** Two worlds that differ in verbosity only, the second at least as
    verbose as the first: they agree on everything but the log, and
    every line logged in the first is logged in the second, in the same
    order. *)
Definition quieter (w w' : World E) : Prop :=
  LogLevel w <= LogLevel w'
  /\ httpClient w = httpClient w'
  /\ backends w = backends w'
  /\ heap w = heap w'
  /\ yCrumb w = yCrumb w'
  /\ net w = net w'
  /\ round_trips (trace w) = round_trips (trace w')
  /\ decodes (trace w) = decodes (trace w')
  /\ sublist (logs (trace w)) (logs (trace w')).

(** A computation keeps [pipeline_frame]. *)
Definition framed {A : Type} (m : M (World E) A) : Prop :=
  forall w, pipeline_frame w (m w).1.

(** A computation returns the same in two worlds related by [quieter],
    and keeps them related. *)
Definition level_blind {A : Type} (m : M (World E) A) : Prop :=
  forall w w', quieter w w' -> quieter (m w).1 (m w').1 /\ (m w).2 = (m w').2.



(** *** Goroutines and the mutex *)

(** A goroutine holds the read lock between [RLock] and [RUnlock], and
    the write lock between [Lock] and its return. *)
Definition holds_read (g : Goroutine) : bool :=
  match at_ g with at_read | at_RUnlock _ => true | _ => false end.

Definition holds_write (g : Goroutine) : bool :=
  match at_ g with at_store | at_return _ => true | _ => false end.

(** How many goroutines satisfy a test. *)
Definition count (P : Goroutine -> bool) (gs : list Goroutine) : nat :=
  length (filter (fun g => P g = true) gs).

(** The mutex says who holds it. *)
Definition mutex_inv (sys : World E * list Goroutine) : Prop :=
  readers (mu (backends sys.1)) = count holds_read sys.2
  /\ count holds_write sys.2 = (if writer (mu (backends sys.1)) then 1 else 0)%nat
  /\ (writer (mu (backends sys.1)) = true -> count holds_read sys.2 = 0%nat).

(** The statements a goroutine has left at most. *)
Definition steps_left (g : Goroutine) : nat :=
  match at_ g with
  | at_switch => 7
  | at_read => 6
  | at_RUnlock _ => 5
  | at_check _ => 4
  | at_Lock => 3
  | at_store => 2
  | at_return _ => 1
  | returned _ => 0
  end.

Definition work_left (gs : list Goroutine) : nat := sum_list (map steps_left gs).

(** Every goroutine has returned. *)
Definition all_returned (gs : list Goroutine) : Prop :=
  Forall (fun g => is_Some (result_of g)) gs.

(** What holds of a goroutine once the entry of [backend] is set. *)
Definition set_inv (backend : SupportedBackend) (w : World E) (g : Goroutine) : Prop :=
  match at_ g with
  | at_switch => True
  | at_read | at_Lock | at_store => recognized (resolving g)
  | at_RUnlock r | at_check r =>
      recognized (resolving g)
      /\ (resolving g = backend -> r <> nil_backend -> field E backend w <> nil_backend)
  | at_return r =>
      recognized (resolving g)
      /\ (resolving g = backend -> r <> nil_backend /\ field E backend w <> nil_backend)
  | returned r =>
      resolving g = backend -> r <> nil_backend /\ field E backend w <> nil_backend
  end.

End package_vocabulary.

(** Inputs for the examples. *)
Module samples.

(** The stub world at verbosity 3. *)
Definition verbose (s : stub.script) : World stub.env := set_LogLevel stub.env 3 (stub.world s).

(** A response whose body breaks off. *)
Definition broken (status : Z) : string + http.Response :=
  inr {| http.StatusCode := status; http.Body := http.Broken "unexpected EOF" |}.

(** Three goroutines: two resolve [yahoo], one resolves [bats]. *)
Definition three_resolvers : list SupportedBackend := [YFinBackend; BATSBackend; YFinBackend].

End samples.

(** * Facts *)

(** ** Byte strings *)

Section strings_facts.

Lemma app_nil (b : string) : EmptyString +:+ b = b.
Proof. reflexivity. Qed.

Lemma app_cons (x : ascii) (a b : string) : String x a +:+ b = String x (a +:+ b).
Proof. reflexivity. Qed.

Lemma app_empty_r (a : string) : a +:+ EmptyString = a.
Proof.
  induction a as [|x a IH]; [done |].
  rewrite app_cons. by rewrite IH.
Qed.

Lemma append_assoc (a b c : string) : (a +:+ b) +:+ c = a +:+ (b +:+ c).
Proof.
  induction a as [|x a IH]; [done |].
  rewrite !app_cons. by rewrite IH.
Qed.

Lemma ContainsByte_app (a b : string) (c : ascii) :
  strs.ContainsByte (a +:+ b) c = strs.ContainsByte a c || strs.ContainsByte b c.
Proof.
  induction a as [|x a IH]; [done |].
  rewrite app_cons. simpl. rewrite IH. by rewrite orb_assoc.
Qed.

Lemma Cut_app (a b : string) (sep : ascii) :
  strs.ContainsByte a sep = false ->
  strs.Cut (a +:+ String sep b) sep = (a, b).
Proof.
  induction a as [|x a IH].
  - intros _. rewrite app_nil. simpl. by rewrite bool_decide_eq_true_2.
  - simpl. intros H. apply orb_false_iff in H as [Hx Ha].
    rewrite ?app_cons. simpl. rewrite Hx. by rewrite (IH Ha).
Qed.

Lemma Split_no_sep (s : string) (sep : ascii) :
  strs.ContainsByte s sep = false -> strs.Split s sep = [s].
Proof.
  induction s as [|x s IH]; simpl; [done |].
  intros H. apply orb_false_iff in H as [Hx Hs].
  rewrite Hx. by rewrite (IH Hs).
Qed.

Lemma Split_app (a b : string) (sep : ascii) :
  strs.ContainsByte a sep = false ->
  strs.Split (a +:+ String sep b) sep = a :: strs.Split b sep.
Proof.
  induction a as [|x a IH].
  - intros _. rewrite app_nil. simpl. by rewrite bool_decide_eq_true_2.
  - simpl. intros H. apply orb_false_iff in H as [Hx Ha].
    rewrite ?app_cons. simpl. rewrite Hx. by rewrite (IH Ha).
Qed.

(** Splitting undoes joining, for settings without the separator. *)
Lemma Split_Join (l : list string) (sep : ascii) :
  l <> [] ->
  Forall (fun s => strs.ContainsByte s sep = false) l ->
  strs.Split (strs.Join l sep) sep = l.
Proof.
  induction l as [|x l IH]; [done |].
  intros _ Hall. apply Forall_cons in Hall as [Hx Hl].
  destruct l as [|y l].
  - simpl. by apply Split_no_sep.
  - change (strs.Join (x :: y :: l) sep) with (x +:+ String sep (strs.Join (y :: l) sep)).
    rewrite Split_app by done. by rewrite IH.
Qed.

End strings_facts.

(** ** Query strings: escaping, parsing and encoding *)

Section url_facts.

Import url.

(** The three cases of the decoding loop. *)
Lemma QueryUnescape_percent (a b : ascii) (r : string) :
  QueryUnescape (String "%" (String a (String b r))) =
  if ishex a && ishex b
  then String (ascii_of_N (N.lor (N.shiftl (unhex a) 4) (unhex b))) <$> QueryUnescape r
  else None.
Proof. reflexivity. Qed.

Lemma QueryUnescape_plus (r : string) :
  QueryUnescape (String "+" r) = String " " <$> QueryUnescape r.
Proof. reflexivity. Qed.

Lemma QueryUnescape_plain (c : ascii) (r : string) :
  c <> "%"%char -> c <> "+"%char ->
  QueryUnescape (String c r) = String c <$> QueryUnescape r.
Proof.
  intros Hpercent Hplus.
  destruct c as [[] [] [] [] [] [] [] []];
    first [ by exfalso; apply Hpercent | by exfalso; apply Hplus | reflexivity ].
Qed.

(** The two hexadecimal digits written for a byte decode to the byte. *)
Lemma unhex_upperhex (c : ascii) :
  let hi := upperhex (N.shiftr (N_of_ascii c) 4) in
  let lo := upperhex (N.land (N_of_ascii c) 15) in
  ishex hi && ishex lo
  && bool_decide (ascii_of_N (N.lor (N.shiftl (unhex hi) 4) (unhex lo)) = c) = true.
Proof. destruct c as [[] [] [] [] [] [] [] []]; vm_compute; reflexivity. Qed.

(** A byte that is written as it is, is neither [%] nor [+]. *)
Lemma unreserved_plain (c : ascii) :
  shouldEscape c
  || negb (bool_decide (c = "%"%char) || bool_decide (c = "+"%char)) = true.
Proof. destruct c as [[] [] [] [] [] [] [] []]; vm_compute; reflexivity. Qed.

(** Decoding what [QueryEscape] wrote for a byte gives the byte back. *)
Lemma unescape_escape_byte (c : ascii) (r : string) :
  QueryUnescape (escape_byte c +:+ r) = String c <$> QueryUnescape r.
Proof.
  unfold escape_byte. case_bool_decide as Hspace.
  - subst c. reflexivity.
  - destruct (shouldEscape c) eqn:Hesc.
    + rewrite !app_cons, app_nil, QueryUnescape_percent.
      pose proof (unhex_upperhex c) as H. cbv zeta in H.
      apply andb_true_iff in H as [H Hc]. rewrite H.
      apply bool_decide_eq_true_1 in Hc. by rewrite Hc.
    + rewrite app_cons, app_nil.
      pose proof (unreserved_plain c) as H. rewrite Hesc in H. simpl in H.
      apply negb_true_iff, orb_false_iff in H as [H1 H2].
      apply bool_decide_eq_false_1 in H1, H2.
      by apply QueryUnescape_plain.
Qed.

Lemma QueryUnescape_QueryEscape (s : string) :
  QueryUnescape (QueryEscape s) = Some s.
Proof.
  induction s as [|c s IH]; [done |].
  simpl. rewrite unescape_escape_byte. by rewrite IH.
Qed.

(** An escaped byte is written with unreserved characters, [%] and [+]
    only: none of the separators of a query string. *)
Lemma escape_byte_separators (c sep : ascii) :
  sep = "&"%char \/ sep = "="%char \/ sep = ";"%char ->
  strs.ContainsByte (escape_byte c) sep = false.
Proof.
  intros [-> | [-> | ->]];
    destruct c as [[] [] [] [] [] [] [] []]; vm_compute; reflexivity.
Qed.

Lemma QueryEscape_separators (s : string) (sep : ascii) :
  sep = "&"%char \/ sep = "="%char \/ sep = ";"%char ->
  strs.ContainsByte (QueryEscape s) sep = false.
Proof.
  intros Hsep. induction s as [|c s IH]; [done |].
  simpl. rewrite ContainsByte_app, IH.
  by rewrite escape_byte_separators.
Qed.

Lemma setting_separators (k x : string) (sep : ascii) :
  sep = "&"%char \/ sep = ";"%char ->
  strs.ContainsByte (setting k x) sep = false.
Proof.
  intros Hsep. unfold setting. rewrite ContainsByte_app. simpl.
  rewrite !QueryEscape_separators by tauto.
  destruct Hsep as [-> | ->]; done.
Qed.

Lemma setting_nonempty (k x : string) : setting k x <> EmptyString.
Proof.
  unfold setting. destruct (QueryEscape k); [rewrite app_nil | rewrite app_cons]; done.
Qed.

Lemma parseSetting_setting (m : Values) (k x : string) :
  parseSetting m (setting k x) = Add m k x.
Proof.
  unfold parseSetting.
  rewrite setting_separators by tauto.
  rewrite bool_decide_eq_false_2 by apply setting_nonempty.
  unfold setting. rewrite Cut_app by (apply QueryEscape_separators; tauto).
  by rewrite !QueryUnescape_QueryEscape.
Qed.

(** [Add] appends to the values of its key and leaves the other keys. *)
Lemma index_Add (v : Values) (key x k : string) :
  index (Add v key x) k = index v k ++ (if bool_decide (k = key) then [x] else []).
Proof.
  unfold Add, index. case_bool_decide as Hk.
  - subst k. by rewrite lookup_insert_eq.
  - rewrite lookup_insert_ne by done. by rewrite app_nil_r.
Qed.

Lemma index_add_pairs (l : list (string * string)) (m : Values) (k : string) :
  index (add_pairs m l) k = index m k ++ (filter (fun kv => kv.1 = k) l).*2.
Proof.
  revert m. induction l as [|[k' x] l IH]; intros m.
  - simpl. by rewrite app_nil_r.
  - unfold add_pairs in *. simpl foldl. rewrite IH, index_Add.
    rewrite filter_cons. simpl. rewrite <- app_assoc.
    case_bool_decide; case_decide; simplify_eq; done.
Qed.

Lemma parse_settings (l : list (string * string)) (m : Values) :
  foldl parseSetting m (map (fun kv => setting kv.1 kv.2) l) = add_pairs m l.
Proof.
  revert m. induction l as [|[k x] l IH]; intros m; [done |].
  simpl. rewrite parseSetting_setting. apply IH.
Qed.

Lemma encode_pairs (v : Values) (keys : list string) :
  flat_map (encodeKey v) keys = map (fun kv => setting kv.1 kv.2) (pairs_of v keys).
Proof.
  induction keys as [|k keys IH]; [done |].
  simpl. unfold pairs_of in *. simpl. rewrite map_app, <- IH. f_equal.
  unfold encodeKey. by rewrite map_map.
Qed.

Lemma filter_same_key (k : string) (xs : list string) :
  (filter (fun kv : string * string => kv.1 = k) (map (pair k) xs)).*2 = xs.
Proof.
  induction xs as [|x xs IH]; [done |].
  simpl. rewrite filter_cons. simpl. rewrite decide_True by done.
  rewrite fmap_cons. simpl. by rewrite IH.
Qed.

Lemma filter_other_key (k k' : string) (xs : list string) :
  k' <> k ->
  filter (fun kv : string * string => kv.1 = k) (map (pair k') xs) = [].
Proof.
  intros Hne. induction xs as [|x xs IH]; [done |].
  simpl. rewrite filter_cons. simpl. by rewrite decide_False.
Qed.

Lemma filter_pairs_of (v : Values) (keys : list string) (k : string) :
  NoDup keys ->
  (filter (fun kv => kv.1 = k) (pairs_of v keys)).*2 =
  if bool_decide (k ∈ keys) then index v k else [].
Proof.
  induction 1 as [|k' keys Hnotin Hnodup IH]; [done |].
  unfold pairs_of in *. simpl. rewrite filter_app, fmap_app, IH.
  destruct (decide (k' = k)) as [-> | Hne].
  - rewrite (bool_decide_eq_true_2 (k ∈ k :: keys)) by set_solver.
    rewrite (bool_decide_eq_false_2 (k ∈ keys)) by done.
    by rewrite app_nil_r, filter_same_key.
  - rewrite filter_other_key by done. simpl.
    apply (f_equal (fun b : bool => if b then index v k else [])).
    apply bool_decide_ext. rewrite elem_of_cons.
    split; [by right | intros [Heq | Hin]; [by subst | done]].
Qed.

Lemma sorted_keys_NoDup (v : Values) : NoDup (sorted_keys v).
Proof.
  unfold sorted_keys. rewrite merge_sort_Permutation.
  apply NoDup_fst_map_to_list.
Qed.

Lemma sorted_keys_elem (v : Values) (k : string) :
  k ∈ sorted_keys v <-> is_Some (v !! k).
Proof.
  unfold sorted_keys. rewrite merge_sort_Permutation.
  rewrite list_elem_of_fmap. split.
  - intros [[k' x] [-> Hin]]. apply elem_of_map_to_list in Hin. eauto.
  - intros [x Hx]. exists (k, x). split; [done |]. by apply elem_of_map_to_list.
Qed.

(** Parsing undoes encoding: every key of a map has, after [Encode] and
    [ParseQuery], the values it had, in their order. *)
Lemma ParseQuery_Encode (v : Values) (k : string) :
  index (ParseQuery (Encode v)) k = index v k.
Proof.
  assert (index v k = if bool_decide (k ∈ sorted_keys v) then index v k else []) as Hk.
  { case_bool_decide as Hin; [done |].
    rewrite sorted_keys_elem in Hin. unfold index.
    destruct (v !! k); [exfalso; eauto | done]. }
  unfold ParseQuery, Encode. rewrite encode_pairs.
  destruct (pairs_of v (sorted_keys v)) as [|p l] eqn:Hpairs.
  - simpl. rewrite Hk, <- filter_pairs_of by apply sorted_keys_NoDup.
    by rewrite Hpairs.
  - rewrite Split_Join.
    + rewrite parse_settings, index_add_pairs, <- Hpairs.
      rewrite filter_pairs_of by apply sorted_keys_NoDup.
      by rewrite <- Hk.
    + done.
    + apply Forall_map, Forall_forall. intros kv _. apply setting_separators. tauto.
Qed.

Example Encode_sample :
  Encode (Add (ParseQuery "b=1&a=x y&&a=%zz&c;d=1&a=2+3&e") "crumb" "t/k")
  = "a=x+y&a=2+3&b=1&crumb=t%2Fk&e=".
Proof. reflexivity. Qed.

(** Adding the crumb and encoding keeps every parsed value of every key
    and adds the crumb as the last value of the key [crumb]. *)
Lemma Query_after_Add (q crumb k : string) :
  index (ParseQuery (Encode (Add (ParseQuery q) "crumb" crumb))) k =
  index (ParseQuery q) k ++ (if bool_decide (k = "crumb") then [crumb] else []).
Proof. by rewrite ParseQuery_Encode, index_Add. Qed.

End url_facts.

(** ** The error text of a [RemoteError] *)

(** C10.  The text of a [RemoteError] is [status: ], the status code in
    decimal, [, detail: ] and the message, in this order and nothing
    else; the body is not part of it: two errors that differ in their
    body only have the same text. *)
Theorem RemoteError_Error_text (e : RemoteError) :
  RemoteErr.Error e = "status: " +:+ fmt.itoa (StatusCode e) +:+ ", detail: " +:+ Msg e
  /\ forall body : string,
       RemoteErr.Error {| Msg := Msg e; StatusCode := StatusCode e; Body := body |}
       = RemoteErr.Error e.
Proof.
  split; [| done].
  unfold RemoteErr.Error, fmt.Sprintf.
  change (fmt.format_args false "status: %d, detail: %s"
            [fmt.Int (StatusCode e); fmt.Str (Msg e)])
    with ("status: " +:+ fmt.itoa (StatusCode e) +:+ ", detail: " +:+ Msg e +:+ "").
  by rewrite app_empty_r.
Qed.

Example RemoteError_Error_404 :
  RemoteErr.Error {| Msg := upstream_msg; StatusCode := 404; Body := "not found" |}
  = "status: 404, detail: error response recieved from upstream api".
Proof. reflexivity. Qed.

(** ** The registry, one goroutine *)

Section registry_facts.

Variable E : Env.

(** C8.  For an identifier that is neither [yahoo] nor [bats],
    [GetBackend] returns [nil] and leaves the world as it is: nothing is
    constructed, nothing is stored; a goroutine that resolves such an
    identifier returns [nil] in one step, without touching the mutex. *)
Theorem GetBackend_unrecognized (backend : SupportedBackend) (w : World E) :
  backend <> YFinBackend ->
  backend <> BATSBackend ->
  GetBackend E backend w = (w, nil_backend)
  /\ goroutine_step E {| resolving := backend; at_ := at_switch |} w
     = Some (w, {| resolving := backend; at_ := returned nil_backend |}).
Proof.
  intros Hy Hb. unfold GetBackend, goroutine_step. simpl.
  by rewrite !bool_decide_eq_false_2.
Qed.

End registry_facts.

Lemma GetBackend_unrecognized_witness :
  GetBackend stub.env "nasdaq" (stub.world []) = (stub.world [], nil_backend)
  /\ goroutine_step stub.env {| resolving := "nasdaq"; at_ := at_switch |} (stub.world [])
     = Some (stub.world [], {| resolving := "nasdaq"; at_ := returned nil_backend |}).
Proof. apply (GetBackend_unrecognized stub.env "nasdaq" (stub.world [])); discriminate. Defined.

(** ** The request builder *)

Section request_facts.

Variable E : Env.


End request_facts.


(** ** The crumb handshake *)

Section handshake_facts.

Variable E : Env.

(** The handshake does not touch the package variables, the registry or
    the heap; it only uses the network and extends the trace. *)
Lemma Client_Do_frame (client : http.Client) (req : http.Request) (w : World E) :
  let w' := (Client_Do E client req w).1 in
  yCrumb w' = yCrumb w /\ LogLevel w' = LogLevel w /\ httpClient w' = httpClient w
  /\ backends w' = backends w /\ heap w' = heap w
  /\ trace w' = trace w ++ [RoundTrip client req].
Proof. unfold Client_Do. by destruct (client_Do E client req (net w)). Qed.

(** The error of a round trip is the client's own. *)
Lemma Client_Do_error (client : http.Client) (req : http.Request) (w w' : World E) (e : error) :
  Client_Do E client req w = (w', inl e) -> is_RemoteError e = false.
Proof.
  unfold Client_Do. destruct (client_Do E client req (net w)) as [n [text | res]]; [| done].
  by intros [= _ <-].
Qed.

Lemma getYahooCrumb_frame (client : http.Client) (w : World E) :
  let w' := (getYahooCrumb E client w).1 in
  yCrumb w' = yCrumb w /\ LogLevel w' = LogLevel w /\ httpClient w' = httpClient w
  /\ backends w' = backends w /\ heap w' = heap w
  /\ exists sent, trace w' = trace w ++ sent /\ decodes sent = [].
Proof.
  unfold getYahooCrumb, bind, ret.
  destruct (http_NewRequest' E "GET" cookie_url) as [e1 | r1]; simpl.
  { repeat split; try done. exists []. by rewrite app_nil_r. }
  pose proof (Client_Do_frame client (setBrowserHeaders r1) w) as F1.
  destruct (Client_Do E client (setBrowserHeaders r1) w) as [w1 [e | res1]];
    simpl in F1; destruct F1 as (? & ? & ? & ? & ? & Ht1).
  { repeat split; try done. eexists. split; [exact Ht1 | done]. }
  destruct (http_NewRequest' E "GET" crumb_url) as [e2 | r2]; simpl.
  { repeat split; try done. eexists. split; [exact Ht1 | done]. }
  pose proof (Client_Do_frame client (setBrowserHeaders r2) w1) as F2.
  destruct (Client_Do E client (setBrowserHeaders r2) w1) as [w2 [e | res2]];
    simpl in F2; destruct F2 as (? & ? & ? & ? & ? & Ht2).
  { simpl. repeat split; try congruence.
    eexists. split; [rewrite Ht2, Ht1, <- app_assoc; reflexivity | done]. }
  destruct (ReadAll (http.Body res2)) as [b [e |]]; simpl;
    (repeat split; try congruence;
     eexists; split; [rewrite Ht2, Ht1, <- app_assoc; reflexivity | done]).
Qed.

(** C1, amended.  The handshake aborts with the client's
    error, and without a token, when the round trip of its first or of
    its second GET fails.  It never reads a status code: once both GETs
    have a response, the outcome is decided by the second body alone,
    which is the token when it can be read to the end, whatever the two
    status codes are. *)
Theorem getYahooCrumb_aborts_on_transport_error (client : http.Client) (w : World E) :
  (forall w1 e,
      handshake_step1 E client w = Some (w1, inl e) ->
      getYahooCrumb E client w = (w1, (EmptyString, Some e)))
  /\ (forall w2 e,
         handshake_step2 E client w = Some (w2, inl e) ->
         getYahooCrumb E client w = (w2, (EmptyString, Some e)))
  /\ (forall w2 res,
         handshake_step2 E client w = Some (w2, inr res) ->
         getYahooCrumb E client w
         = (w2, match http.Body res with
                | http.Bytes token => (token, None)
                | http.Broken text => (EmptyString, Some (LibError io_read text))
                end)).
Proof.
  unfold handshake_step2, handshake_step1, getYahooCrumb, bind, ret.
  destruct (http_NewRequest' E "GET" cookie_url) as [e1 | r1]; [by repeat split |].
  destruct (Client_Do E client (setBrowserHeaders r1) w) as [w1 [e | res1]].
  { repeat split; intros; simplify_eq; done. }
  destruct (http_NewRequest' E "GET" crumb_url) as [e2 | r2]; [by repeat split |].
  destruct (Client_Do E client (setBrowserHeaders r2) w1) as [w2 [e | res2]].
  { repeat split; intros; simplify_eq; done. }
  repeat split; intros; simplify_eq.
  by destruct (http.Body res).
Qed.

End handshake_facts.

(** C1 as the specification states it fails: with a 404 at the second GET the
    handshake returns no error, and the body of the 404 as the token. *)
Lemma getYahooCrumb_accepts_404 :
  (exists w2 res,
      handshake_step2 stub.env 1%nat (stub.world stub.not_found_script) = Some (w2, inr res)
      /\ http.StatusCode res = 404)
  /\ (getYahooCrumb stub.env 1%nat (stub.world stub.not_found_script)).2 = ("Not Found", None).
Proof. split; [eexists _, _; split; reflexivity | reflexivity]. Qed.

Lemma getYahooCrumb_aborts_on_transport_error_witness :
  handshake_step1 stub.env 1%nat (stub.world [])
  = Some (emit stub.env (RoundTrip 1%nat (setBrowserHeaders (http.Build_Request "GET"
             (url.Build_URL "" "" cookie_url "") ∅ None))) (stub.world []),
          inl (LibError net_http "EOF"))
  /\ (getYahooCrumb stub.env 1%nat (stub.world [])).2 = (EmptyString, Some (LibError net_http "EOF")).
Proof.
  split; [reflexivity |].
  rewrite (proj1 (getYahooCrumb_aborts_on_transport_error stub.env 1%nat (stub.world []))
             _ (LibError net_http "EOF") eq_refl).
  reflexivity.
Defined.

(** ** The call executor *)

Section executor_facts.

Variable E : Env.

Lemma round_trips_app (a b : list Event) :
  round_trips (a ++ b) = round_trips a ++ round_trips b.
Proof. apply omap_app. Qed.

Lemma decodes_app (a b : list Event) : decodes (a ++ b) = decodes a ++ decodes b.
Proof. apply omap_app. Qed.

(** A log line is neither a round trip nor a decoding, and changes no
    package variable. *)
Lemma logf_frame (threshold : Z) (format : string) (operands : list fmt.arg) (w : World E) :
  let w' := (logf E threshold format operands w).1 in
  yCrumb w' = yCrumb w /\ net w' = net w
  /\ exists evs, trace w' = trace w ++ evs /\ round_trips evs = [] /\ decodes evs = [].
Proof.
  unfold logf. case_match; simpl; repeat split; try done.
  - by eexists.
  - exists []. by rewrite app_nil_r.
Qed.

Lemma json_Unmarshal'_frame (data : string) (dest : Dest E) (w : World E) :
  json_Unmarshal' E data dest w
  = (emit E (Unmarshal data) w,
     ((json_Unmarshal E data dest).1, LibError encoding_json <$> (json_Unmarshal E data dest).2)).
Proof. unfold json_Unmarshal'. by destruct (json_Unmarshal E data dest). Qed.

(** Handling a response sends nothing and leaves the crumb alone. *)
Lemma handleResponse_frame (res : http.Response) (req : http.Request)
    (v : option (Dest E)) (w : World E) :
  let w' := (handleResponse E res req v w).1 in
  yCrumb w' = yCrumb w
  /\ exists evs, trace w' = trace w ++ evs /\ round_trips evs = [].
Proof.
  unfold handleResponse, bind, ret.
  destruct (ReadAll (http.Body res)) as [body [e |]].
  - pose proof (logf_frame 0 ("Cannot parse response: %v" +:+ nl) [fmt.Str (error_text e)] w) as F.
    destruct (logf E 0 _ _ w) as [w1 []]. simpl in *.
    destruct F as (? & _ & evs & ? & ? & _). eauto.
  - destruct (http.StatusCode res >=? 400).
    + pose proof (logf_frame 0 ("API error: %q" +:+ nl) [fmt.Str body] w) as F.
      destruct (logf E 0 _ _ w) as [w1 []]. simpl in *.
      destruct F as (? & _ & evs & ? & ? & _). eauto.
    + pose proof (logf_frame 2 ("API response: %q" +:+ nl) [fmt.Str body] w) as F.
      destruct (logf E 2 _ _ w) as [w1 []]. simpl in *.
      destruct F as (Hc & _ & evs & Ht & Hr & _).
      destruct v as [dest |]; [| by eauto].
      rewrite json_Unmarshal'_frame. simpl. split; [done |].
      exists (evs ++ [Unmarshal body]). rewrite Ht, app_assoc. split; [done |].
      rewrite round_trips_app, Hr. done.
Qed.

(** With a crumb in the cache, lines 258-270 make no call: they add the
    cached crumb to the query and change nothing else. *)
Lemma addCrumb_cached (s : BackendConfiguration) (req : http.Request) (w : World E) :
  yCrumb w <> EmptyString ->
  addCrumb E s req w = (w, inr (with_crumb s req (yCrumb w))).
Proof.
  intros Hc. unfold addCrumb, with_crumb, bind, ret.
  case_bool_decide; [| done].
  by rewrite bool_decide_eq_false_2.
Qed.

Lemma logRequest_frame (req : http.Request) (w : World E) :
  let w' := (logRequest E req w).1 in
  yCrumb w' = yCrumb w /\ net w' = net w
  /\ exists evs, trace w' = trace w ++ evs /\ round_trips evs = [] /\ decodes evs = [].
Proof. apply logf_frame. Qed.


(** When they do not, [Do] sends the request they made, and nothing
    else; the crumb is not touched after them. *)
Lemma Do_sends (s : BackendConfiguration) (req : http.Request) (v : option (Dest E))
    (w w1 : World E) (req1 : http.Request) :
  addCrumb E s req (logRequest E req w).1 = (w1, inr req1) ->
  yCrumb (Do E s req v w).1 = yCrumb w1
  /\ (exists evs, trace (Do E s req v w).1 = trace w1 ++ evs
                  /\ round_trips evs = [(HTTPClient s, req1)])
  /\ req_out (Do E s req v w).2 = req1.
Proof.
  intros Hadd. unfold Do, bind, ret.
  destruct (logRequest E req w) as [w0 []]. simpl in Hadd. rewrite Hadd.
  pose proof (Client_Do_frame E (HTTPClient s) req1 w1) as F1.
  destruct (Client_Do E (HTTPClient s) req1 w1) as [w2 res]. simpl in F1.
  destruct F1 as (Hc1 & _ & _ & _ & _ & Ht1).
  pose proof (logf_frame 2 ("Completed in %v" +:+ nl) [] w2) as F2.
  destruct (logf E 2 _ _ w2) as [w3 []]. simpl in F2.
  destruct F2 as (Hc2 & _ & evs2 & Ht2 & Hr2 & _).
  destruct res as [e | res].
  - pose proof (logf_frame 0 ("Request to api failed: %v" +:+ nl) [fmt.Str (error_text e)] w3) as F3.
    destruct (logf E 0 _ _ w3) as [w4 []]. simpl in *.
    destruct F3 as (Hc3 & _ & evs3 & Ht3 & Hr3 & _).
    split; [congruence |]. split; [| done].
    exists ([RoundTrip (HTTPClient s) req1] ++ evs2 ++ evs3).
    split; [by rewrite Ht3, Ht2, Ht1, <- !app_assoc |].
    by rewrite !round_trips_app, Hr2, Hr3.
  - pose proof (handleResponse_frame res req1 v w3) as F3.
    simpl in F3. destruct F3 as (Hc3 & evs3 & Ht3 & Hr3).
    split; [congruence |]. split.
    + exists ([RoundTrip (HTTPClient s) req1] ++ evs2 ++ evs3).
      split; [by rewrite Ht3, Ht2, Ht1, <- !app_assoc |].
      by rewrite !round_trips_app, Hr2, Hr3.
    + unfold handleResponse, bind, ret.
      destruct (ReadAll (http.Body res)) as [body [e |]].
      * by destruct (logf E 0 _ _ w3).
      * destruct (http.StatusCode res >=? 400); destruct (logf E _ _ _ w3) as [w4 []];
          [done |].
        destruct v as [dest |]; [| done].
        by rewrite json_Unmarshal'_frame.
Qed.

(** One call with a crumb in the cache: the crumb stays, and exactly one
    request goes over the wire, the caller's with the cached crumb. *)
Lemma Do_cached (s : BackendConfiguration) (req : http.Request)
    (v : option (Dest E)) (w : World E) :
  yCrumb w <> EmptyString ->
  yCrumb (Do E s req v w).1 = yCrumb w
  /\ round_trips (trace (Do E s req v w).1)
     = round_trips (trace w) ++ [(HTTPClient s, with_crumb s req (yCrumb w))]
  /\ req_out (Do E s req v w).2 = with_crumb s req (yCrumb w).
Proof.
  intros Hc.
  destruct (logRequest_frame req w) as (Hc0 & _ & evs0 & Ht0 & Hr0 & _).
  assert (addCrumb E s req (logRequest E req w).1
          = ((logRequest E req w).1, inr (with_crumb s req (yCrumb w)))) as Hadd.
  { rewrite addCrumb_cached by congruence. by rewrite Hc0. }
  destruct (Do_sends s req v w _ _ Hadd) as (Hy & (evs & Ht & Hr) & Hreq).
  split; [congruence |]. split; [| done].
  by rewrite Ht, Ht0, !round_trips_app, Hr0, Hr, app_nil_r.
Qed.

(** The request [NewRequest] returns, and what it leaves alone. *)
Lemma NewRequest_frame (s : BackendConfiguration) (method path : string)
    (ctx : option http.Context) (w : World E) :
  let r := NewRequest E s method path ctx w in
  r.2 = request_for E method (target s path) ctx
  /\ yCrumb r.1 = yCrumb w
  /\ exists evs, trace r.1 = trace w ++ evs /\ round_trips evs = [].
Proof.
  unfold NewRequest, request_for, target, bind, ret.
  destruct (http_NewRequest' E method _) as [e | req0].
  - pose proof (logf_frame 0 ("Cannot create api request: %v" +:+ nl)
                  [fmt.Str (error_text e)] w) as F.
    destruct (logf E 0 _ _ w) as [w1 []]. simpl in *.
    destruct F as (? & _ & evs & ? & ? & _). eauto.
  - simpl. repeat split. exists []. by rewrite app_nil_r.
Qed.

(** The registry functions and [SetHTTPClient] neither send nor touch
    the crumb. *)
Lemma GetBackend_frame (backend : SupportedBackend) (w : World E) :
  yCrumb (GetBackend E backend w).1 = yCrumb w
  /\ trace (GetBackend E backend w).1 = trace w.
Proof.
  unfold GetBackend. repeat case_bool_decide; try done.
Qed.

Lemma SetBackend_frame (backend : SupportedBackend) (b : Backend) (w : World E) :
  yCrumb (SetBackend E backend b w).1 = yCrumb w
  /\ trace (SetBackend E backend b w).1 = trace w.
Proof. unfold SetBackend. by repeat case_bool_decide. Qed.

(** One call of the package with a crumb in the cache. *)
Lemma run_call_cached (c : api_call E) (w : World E) :
  yCrumb w <> EmptyString ->
  yCrumb (run_call E c w).1 = yCrumb w
  /\ round_trips (trace (run_call E c w).1)
     = round_trips (trace w) ++ sends E (yCrumb w) c.
Proof.
  intros Hc. destruct c as [client | backend | backend b | s method path ctx | s req v
                           | s path form ctx v]; simpl; unfold bind, ret.
  - by rewrite app_nil_r.
  - destruct (GetBackend_frame backend w) as [Hy Ht].
    destruct (GetBackend E backend w) as [w1 b]. simpl in *.
    by rewrite Hy, Ht, app_nil_r.
  - destruct (SetBackend_frame backend b w) as [Hy Ht].
    destruct (SetBackend E backend b w) as [w1 []]. simpl in *.
    by rewrite Hy, Ht, app_nil_r.
  - destruct (NewRequest_frame s method path ctx w) as (_ & Hy & evs & Ht & Hr).
    destruct (NewRequest E s method path ctx w) as [w1 r]. simpl in *.
    by rewrite Hy, Ht, round_trips_app, Hr.
  - destruct (Do_cached s req v w Hc) as (Hy & Hr & _).
    by destruct (Do E s req v w) as [w1 d].
  - unfold Call, bind, ret. fold (call_path E path form).
    destruct (NewRequest_frame s "GET" (call_path E path form) ctx w)
      as (Hreq & Hy & evs & Ht & Hr).
    destruct (NewRequest E s "GET" (call_path E path form) ctx w) as [w1 r].
    simpl in *. rewrite <- Hreq.
    destruct r as [e | req]; simpl.
    + by rewrite Hy, Ht, round_trips_app, Hr.
    + assert (yCrumb w1 <> EmptyString) as Hc1 by congruence.
      destruct (Do_cached s req v w1 Hc1) as (Hy1 & Hr1 & _).
      destruct (Do E s req v w1) as [w2 d]. simpl in *.
      split; [congruence |].
      by rewrite Hr1, Ht, round_trips_app, Hr, app_nil_r, Hy.
Qed.

(** C4.  From a world whose cache holds a crumb, any program that uses
    the package leaves that crumb in the cache, and the only round trips
    it makes are one per call of [Do] or [Call], for the request of that
    call: none for a handshake.  The request of a yahoo call carries the
    cached crumb as it is.  And in any world, a call that changes the
    cache started with an empty cache. *)
Theorem crumb_fetched_once (calls : list (api_call E)) (w : World E) :
  (yCrumb w <> EmptyString ->
   yCrumb (run_calls E calls w).1 = yCrumb w
   /\ round_trips (trace (run_calls E calls w).1)
      = round_trips (trace w) ++ flat_map (sends E (yCrumb w)) calls)
  /\ (forall c : api_call E,
         yCrumb (run_call E c w).1 <> yCrumb w -> yCrumb w = EmptyString).
Proof.
  split.
  - intros Hc. revert w Hc.
    induction calls as [| c calls IH]; intros w Hc.
    + simpl. by rewrite app_nil_r.
    + simpl. unfold bind.
      destruct (run_call_cached c w Hc) as (Hy & Hr).
      destruct (run_call E c w) as [w1 []]. simpl in Hy, Hr.
      assert (yCrumb w1 <> EmptyString) as Hc1 by congruence.
      destruct (IH w1 Hc1) as (Hy' & Hr').
      split; [congruence |].
      by rewrite Hr', Hr, Hy, <- app_assoc.
  - intros c Hchange.
    destruct (decide (yCrumb w = EmptyString)) as [| Hc]; [done |].
    by destruct (run_call_cached c w Hc) as (Hy & _).
Qed.

(** The message of the error that wraps a handshake failure. *)
Lemma Errorf_crumb (e : error) :
  Errorf "get yahoo crumb err: %w" e
  = Wrapped ("get yahoo crumb err: " +:+ error_text e) e.
Proof.
  unfold Errorf. f_equal.
  change (fmt.format_args true "get yahoo crumb err: %w" [fmt.Str (error_text e)])
    with ("get yahoo crumb err: " +:+ error_text e +:+ "").
  by rewrite app_empty_r.
Qed.

(** With an empty cache, lines 258-270 for the yahoo backend run the
    handshake; its error is wrapped and returned, its crumb is stored
    and added to the query. *)
Lemma addCrumb_empty (s : BackendConfiguration) (req : http.Request) (w : World E) :
  Type_ s = YFinBackend ->
  yCrumb w = EmptyString ->
  addCrumb E s req w
  = match getYahooCrumb E (HTTPClient s) w with
    | (wh, (_, Some e)) => (wh, inl (Wrapped ("get yahoo crumb err: " +:+ error_text e) e))
    | (wh, (crumb, None)) => (set_yCrumb E crumb wh, inr (with_crumb s req crumb))
    end.
Proof.
  intros Hs Hc. unfold addCrumb, with_crumb, bind, ret.
  rewrite (bool_decide_eq_true_2 _ Hs), (bool_decide_eq_true_2 _ Hc).
  destruct (getYahooCrumb E (HTTPClient s) w) as [wh [crumb [e |]]]; [| done].
  by rewrite Errorf_crumb.
Qed.

Lemma addCrumb_other (s : BackendConfiguration) (req : http.Request) (w : World E) :
  Type_ s <> YFinBackend -> addCrumb E s req w = (w, inr req).
Proof. intros Hs. unfold addCrumb. by rewrite bool_decide_eq_false_2. Qed.

(** Lines 258-270 decode nothing; the only error they return is a
    wrapped one; the request they return for the yahoo backend is the
    caller's with the crumb that is then in the cache. *)
Lemma addCrumb_frame (s : BackendConfiguration) (req : http.Request) (w : World E) :
  let r := addCrumb E s req w in
  (exists evs, trace r.1 = trace w ++ evs /\ decodes evs = [])
  /\ match r.2 with
     | inl e => is_RemoteError e = false
     | inr req1 => Type_ s = YFinBackend -> req1 = with_crumb s req (yCrumb r.1)
     end.
Proof.
  destruct (decide (Type_ s = YFinBackend)) as [Hs | Hs].
  - destruct (decide (yCrumb w = EmptyString)) as [Hc | Hc].
    + rewrite addCrumb_empty by done.
      pose proof (getYahooCrumb_frame E (HTTPClient s) w) as F.
      destruct (getYahooCrumb E (HTTPClient s) w) as [wh [crumb [e |]]]; simpl in *;
        destruct F as (_ & _ & _ & _ & _ & evs & Ht & Hd); split; eauto.
    + rewrite addCrumb_cached by done. simpl. split; [| done].
      exists []. by rewrite app_nil_r.
  - rewrite addCrumb_other by done. simpl. split; [| done].
    exists []. by rewrite app_nil_r.
Qed.


(** What handling a response returns, case by case. *)
Lemma handleResponse_cases (res : http.Response) (req : http.Request)
    (v : option (Dest E)) (w : World E) :
  let r := handleResponse E res req v w in
  match http.Body res with
  | http.Broken text =>
      r.2 = {| err := Some (LibError io_read text); req_out := req; v_out := v |}
      /\ decodes (trace r.1) = decodes (trace w)
  | http.Bytes body =>
      if http.StatusCode res >=? 400 then
        r.2 = {| err := Some (Remote {| Msg := upstream_msg;
                                        StatusCode := http.StatusCode res;
                                        Body := body |});
                 req_out := req; v_out := v |}
        /\ decodes (trace r.1) = decodes (trace w)
      else
        match v with
        | Some dest =>
            r.2 = {| err := LibError encoding_json <$> (json_Unmarshal E body dest).2;
                     req_out := req;
                     v_out := Some (json_Unmarshal E body dest).1 |}
            /\ decodes (trace r.1) = decodes (trace w) ++ [body]
        | None =>
            r.2 = {| err := None; req_out := req; v_out := None |}
            /\ decodes (trace r.1) = decodes (trace w)
        end
  end.
Proof.
  unfold handleResponse, bind, ret.
  destruct (http.Body res) as [body | text]; simpl.
  - destruct (http.StatusCode res >=? 400).
    + pose proof (logf_frame 0 ("API error: %q" +:+ nl) [fmt.Str body] w) as F.
      destruct (logf E 0 _ _ w) as [w1 []]. simpl in *.
      destruct F as (_ & _ & evs & Ht & _ & Hd).
      split; [done |]. by rewrite Ht, decodes_app, Hd, app_nil_r.
    + pose proof (logf_frame 2 ("API response: %q" +:+ nl) [fmt.Str body] w) as F.
      destruct (logf E 2 _ _ w) as [w1 []]. simpl in *.
      destruct F as (_ & _ & evs & Ht & _ & Hd).
      destruct v as [dest |].
      * rewrite json_Unmarshal'_frame. simpl. split; [done |].
        by rewrite !decodes_app, Ht, decodes_app, Hd, app_nil_r.
      * simpl. split; [done |]. by rewrite Ht, decodes_app, Hd, app_nil_r.
  - pose proof (logf_frame 0 ("Cannot parse response: %v" +:+ nl) [fmt.Str text] w) as F.
    destruct (logf E 0 _ _ w) as [w1 []]. simpl in *.
    destruct F as (_ & _ & evs & Ht & _ & Hd).
    split; [done |]. by rewrite Ht, decodes_app, Hd, app_nil_r.
Qed.

(** A call that receives a response ends in the handling of that
    response; nothing was decoded before. *)
Lemma Do_received (s : BackendConfiguration) (req : http.Request) (v : option (Dest E))
    (w w2 : World E) (req1 : http.Request) (status : Z) (body : string) :
  received E s req w = Some (w2, req1, status, body) ->
  exists w3 res,
    Do E s req v w = handleResponse E res req1 v w3
    /\ http.StatusCode res = status /\ http.Body res = http.Bytes body
    /\ decodes (trace w3) = decodes (trace w).
Proof.
  unfold received, Do, bind, ret.
  destruct (logRequest_frame req w) as (_ & _ & evs0 & Ht0 & _ & Hd0).
  destruct (logRequest E req w) as [w0 []]. simpl in *.
  destruct (addCrumb_frame s req w0) as [(evs1 & Ht1 & Hd1) _].
  destruct (addCrumb E s req w0) as [w1 [e | req1']]; [done |]. simpl in *.
  pose proof (Client_Do_frame E (HTTPClient s) req1' w1) as F.
  destruct (Client_Do E (HTTPClient s) req1' w1) as [w2' [e | res]]; [done |].
  simpl in F. destruct F as (_ & _ & _ & _ & _ & Ht2).
  destruct (http.Body res) as [body' | text] eqn:Hbody; simpl; [| done].
  intros [= <- <- <- <-].
  pose proof (logf_frame 2 ("Completed in %v" +:+ nl) [] w2') as F.
  destruct (logf E 2 _ _ w2') as [w3 []]. simpl in F.
  destruct F as (_ & _ & evs3 & Ht3 & _ & Hd3).
  exists w3, res. repeat split; try done.
  rewrite Ht3, Ht2, Ht1, Ht0, !decodes_app, Hd0, Hd1, Hd3. simpl.
  by rewrite !app_nil_r.
Qed.

(** A call that receives no response returns an error that is no
    [RemoteError]. *)
Lemma Do_not_received (s : BackendConfiguration) (req : http.Request) (v : option (Dest E))
    (w : World E) :
  received E s req w = None ->
  exists e, err (Do E s req v w).2 = Some e /\ is_RemoteError e = false.
Proof.
  unfold received, Do, bind, ret.
  destruct (logRequest E req w) as [w0 []]. simpl.
  destruct (addCrumb_frame s req w0) as [_ He].
  destruct (addCrumb E s req w0) as [w1 [e | req1]]; simpl in *; [by eauto |].
  destruct (Client_Do E (HTTPClient s) req1 w1) as [w2 [e | res]] eqn:Hdo.
  - intros _. destruct (logf E 2 _ _ w2) as [w3 []].
    apply Client_Do_error in Hdo.
    destruct (logf E 0 _ _ w3) as [w4 []]. simpl. eauto.
  - destruct (logf E 2 _ _ w2) as [w3 []].
    pose proof (handleResponse_cases res req1 v w3) as Hc.
    destruct (http.Body res) as [body | text]; simpl; [done |].
    intros _. destruct Hc as [-> _]. simpl. eauto.
Qed.

(** C2.  [Do] returns a [RemoteError] exactly when it receives a
    response whose status is 400 or more.  The error then carries that
    status, the body as it was read and the fixed message; nothing is
    handed to the JSON decoder and the destination is as the caller left
    it.  So every other failure (the handshake, the round trip, reading
    the body, decoding) is an error of another type. *)
Theorem Do_RemoteError (s : BackendConfiguration) (req : http.Request)
    (v : option (Dest E)) (w : World E) :
  (forall e : RemoteError,
      err (Do E s req v w).2 = Some (Remote e) <->
      exists w2 req1 status body,
        received E s req w = Some (w2, req1, status, body)
        /\ 400 <= status
        /\ e = {| Msg := upstream_msg; StatusCode := status; Body := body |})
  /\ (forall e : RemoteError,
         err (Do E s req v w).2 = Some (Remote e) ->
         v_out (Do E s req v w).2 = v
         /\ decodes (trace (Do E s req v w).1) = decodes (trace w)).
Proof.
  destruct (received E s req w) as [[[[w2 req1] status] body] |] eqn:Hrec.
  - destruct (Do_received s req v w w2 req1 status body Hrec)
      as (w3 & res & -> & Hstatus & Hbody & Hd).
    pose proof (handleResponse_cases res req1 v w3) as Hc.
    rewrite Hbody, Hstatus in Hc. simpl in Hc.
    destruct (status >=? 400) eqn:Hge.
    + destruct Hc as [-> Hd']. simpl. split.
      * intros e. split.
        -- intros [= <-]. exists w2, req1, status, body. split; [done |]. split; [lia | done].
        -- intros (? & ? & ? & ? & [= <- <- <- <-] & _ & ->). done.
      * intros e _. split; [done | congruence].
    + assert (forall e, err (handleResponse E res req1 v w3).2 <> Some (Remote e)) as Hno.
      { intros e. destruct v as [dest |]; destruct Hc as [-> _]; simpl; [| done].
        by destruct ((json_Unmarshal E body dest).2). }
      split.
      * intros e. split; [by intros ?%Hno |].
        intros (? & ? & ? & ? & [= <- <- <- <-] & ? & _). lia.
      * by intros e ?%Hno.
  - destruct (Do_not_received s req v w Hrec) as (e' & He' & Hno).
    rewrite He'. split.
    + intros e. split; [intros [= ->]; done | by intros (? & ? & ? & ? & ? & _)].
    + intros e [= ->]. done.
Qed.

(** C6.  When [Do] receives a response with a status below 400 and the
    caller gave a destination, the body is handed to the JSON decoder
    with that destination, once.  What the decoder returns is what [Do]
    returns: the decoder's own error if it fails, and no error and the
    decoded destination if it succeeds. *)
Theorem Do_decodes (s : BackendConfiguration) (req : http.Request) (dest : Dest E)
    (w w2 : World E) (req1 : http.Request) (status : Z) (body : string) :
  received E s req w = Some (w2, req1, status, body) ->
  status < 400 ->
  err (Do E s req (Some dest) w).2
  = LibError encoding_json <$> (json_Unmarshal E body dest).2
  /\ v_out (Do E s req (Some dest) w).2 = Some (json_Unmarshal E body dest).1
  /\ decodes (trace (Do E s req (Some dest) w).1) = decodes (trace w) ++ [body]
  /\ (forall dest', json_Unmarshal E body dest = (dest', None) ->
        err (Do E s req (Some dest) w).2 = None
        /\ v_out (Do E s req (Some dest) w).2 = Some dest').
Proof.
  intros Hrec Hlt.
  destruct (Do_received s req (Some dest) w w2 req1 status body Hrec)
    as (w3 & res & -> & Hstatus & Hbody & Hd).
  pose proof (handleResponse_cases res req1 (Some dest) w3) as Hc.
  rewrite Hbody, Hstatus in Hc. simpl in Hc.
  replace (status >=? 400) with false in Hc by lia.
  destruct Hc as [-> Hd']. simpl.
  split; [done |]. split; [done |]. split; [congruence |].
  by intros dest' ->.
Qed.

(** C9, amended.  For the yahoo backend, the request that
    [Do] sends differs from the caller's in its raw query only.  The new
    raw query is the encoding of the parsed old one with the crumb
    added; parsed again, every key has the values it had when the old
    query was parsed, in their order, and the key [crumb] has the crumb
    as one more, last value.  The values are those [Query] reports: a
    setting that does not parse is not among them. *)
Theorem crumb_keeps_parsed_query (s : BackendConfiguration) (req : http.Request)
    (v : option (Dest E)) (w w1 : World E) (req1 : http.Request) :
  Type_ s = YFinBackend ->
  addCrumb E s req (logRequest E req w).1 = (w1, inr req1) ->
  req_out (Do E s req v w).2 = req1
  /\ url.RawQuery (http.URL req1)
     = url.Encode (url.Add (url.Query (http.URL req)) "crumb" (yCrumb w1))
  /\ (forall k : string,
         url.index (url.Query (http.URL req1)) k
         = url.index (url.Query (http.URL req)) k
           ++ (if bool_decide (k = "crumb") then [yCrumb w1] else []))
  /\ url.Scheme (http.URL req1) = url.Scheme (http.URL req)
  /\ url.Host (http.URL req1) = url.Host (http.URL req)
  /\ url.Path (http.URL req1) = url.Path (http.URL req)
  /\ http.Method req1 = http.Method req
  /\ http.Hdr req1 = http.Hdr req
  /\ http.Ctx req1 = http.Ctx req.
Proof.
  intros Hs Hadd.
  destruct (Do_sends s req v w w1 req1 Hadd) as (_ & _ & Hout).
  split; [done |]. clear Hout.
  destruct (addCrumb_frame s req (logRequest E req w).1) as [_ Hreq].
  rewrite Hadd in Hreq. simpl in Hreq. specialize (Hreq Hs). subst req1.
  unfold with_crumb in *. rewrite (bool_decide_eq_true_2 _ Hs) in *.
  simpl. split; [done |]. split; [| done].
  intros k. unfold url.Query. simpl. apply Query_after_Add.
Qed.

End executor_facts.

Lemma crumb_fetched_once_witness :
  yCrumb (stub.cached [stub.ok 200 stub.x1; stub.ok 500 "oops"]) <> EmptyString
  /\ yCrumb (run_calls stub.env stub.two_calls
               (stub.cached [stub.ok 200 stub.x1; stub.ok 500 "oops"])).1 = "tok"
  /\ map (fun sent => url.RawQuery (http.URL sent.2))
       (round_trips (trace (run_calls stub.env stub.two_calls
                              (stub.cached [stub.ok 200 stub.x1; stub.ok 500 "oops"])).1))
     = ["crumb=tok&symbols=AAPL%2CMSFT"; "crumb=tok&symbols=AAPL"].
Proof.
  split; [discriminate |].
  destruct (proj1 (crumb_fetched_once stub.env stub.two_calls
                     (stub.cached [stub.ok 200 stub.x1; stub.ok 500 "oops"])))
    as [Hy Hr]; [discriminate |].
  split; [exact Hy |]. rewrite Hr. vm_compute. reflexivity.
Defined.


Lemma Do_RemoteError_witness :
  err (Do stub.env stub.bats stub.quote_request (Some 7) (stub.world [stub.ok 404 "not found"])).2
  = Some (Remote {| Msg := upstream_msg; StatusCode := 404; Body := "not found" |})
  /\ v_out (Do stub.env stub.bats stub.quote_request (Some 7)
              (stub.world [stub.ok 404 "not found"])).2 = Some 7.
Proof.
  pose proof (Do_RemoteError stub.env stub.bats stub.quote_request (Some 7)
                (stub.world [stub.ok 404 "not found"])) as [Hiff Hframe].
  assert (err (Do stub.env stub.bats stub.quote_request (Some 7)
                 (stub.world [stub.ok 404 "not found"])).2
          = Some (Remote {| Msg := upstream_msg; StatusCode := 404; Body := "not found" |}))
    as Herr.
  { apply Hiff. eexists _, _, 404, "not found".
    split; [reflexivity |]. split; [lia | reflexivity]. }
  split; [exact Herr |]. apply (Hframe _ Herr).
Defined.

Lemma Do_decodes_witness :
  err (Do stub.env stub.bats stub.quote_request (Some 0) (stub.world [stub.ok 200 stub.x1])).2
  = None
  /\ v_out (Do stub.env stub.bats stub.quote_request (Some 0)
              (stub.world [stub.ok 200 stub.x1])).2 = Some 1.
Proof.
  edestruct (Do_decodes stub.env stub.bats stub.quote_request 0 (stub.world [stub.ok 200 stub.x1]))
    as (He & Hv & _); [reflexivity | simpl; lia |].
  split; [exact He | exact Hv].
Defined.

Lemma crumb_keeps_parsed_query_witness :
  url.RawQuery (http.URL (req_out (Do stub.env stub.yahoo stub.quote_request None
                                     (stub.cached [])).2))
  = "crumb=tok&symbols=AAPL%2CMSFT"
  /\ url.index (url.Query (http.URL (req_out (Do stub.env stub.yahoo stub.quote_request None
                                                (stub.cached [])).2))) "symbols"
     = ["AAPL,MSFT"].
Proof.
  edestruct (crumb_keeps_parsed_query stub.env stub.yahoo stub.quote_request None (stub.cached []))
    as (Hout & Hraw & Hk & _); [reflexivity | reflexivity |].
  split.
  - exact (eq_trans (f_equal (fun r => url.RawQuery (http.URL r)) Hout) Hraw).
  - exact (eq_trans (f_equal (fun r => url.index (url.Query (http.URL r)) "symbols") Hout)
             (Hk "symbols")).
Defined.

(** C9 as the specification states it fails: the query of the request
    has the two settings [symbols=AAPL] and [note=100%]; after [Do] has
    added the crumb [tok], the query has the two settings [crumb=tok]
    and [symbols=AAPL], and the key [note] has no value left. *)
Lemma Do_drops_malformed_setting :
  strs.Split (url.RawQuery (http.URL stub.noted_request)) "&" = ["symbols=AAPL"; "note=100%"]
  /\ strs.Split (url.RawQuery (http.URL (req_out (Do stub.env stub.yahoo stub.noted_request None
                                                    (stub.cached [])).2))) "&"
     = ["crumb=tok"; "symbols=AAPL"]
  /\ url.index (url.Query (http.URL (req_out (Do stub.env stub.yahoo stub.noted_request None
                                                (stub.cached [])).2))) "note" = [].
Proof. repeat split; reflexivity. Qed.

(** The same for a setting with a semicolon, which [ParseQuery] rejects. *)
Example Do_drops_semicolon_setting :
  url.RawQuery (http.URL (req_out (Do stub.env stub.yahoo stub.listed_request None
                                     (stub.cached [])).2))
  = "crumb=tok&lang=en".
Proof. reflexivity. Qed.

(** ** The registry, several goroutines *)

Section concurrency_facts.

Variable E : Env.

(** A configuration stays where it is while the heap grows. *)
Lemma configured_mono (w0 w w' : World E) (backend : SupportedBackend) (b : Backend)
    (ext : list BackendConfiguration) :
  heap w' = heap w ++ ext ->
  configured E w0 backend w b -> configured E w0 backend w' b.
Proof.
  unfold configured, deref. intros Hheap. destruct b as [| a |]; try done.
  rewrite Hheap. intros Ha. by apply lookup_app_l_Some.
Qed.

Lemma pc_inv_mono (w0 w w' : World E) (backend : SupportedBackend) (g : Goroutine)
    (ext : list BackendConfiguration) :
  heap w' = heap w ++ ext ->
  pc_inv E w0 backend w g -> pc_inv E w0 backend w' g.
Proof.
  intros Hheap. unfold pc_inv.
  destruct (at_ g); try done.
  - intros [? H]. split; [done |]. intros Hg. destruct (H Hg); eauto using configured_mono.
  - intros [? H]. split; [done |]. intros Hg. destruct (H Hg); eauto using configured_mono.
  - intros [? H]. split; eauto using configured_mono.
  - eauto using configured_mono.
Qed.

Lemma field_set_mu (backend : SupportedBackend) (m : RWMutex) (w : World E) :
  field E backend (set_mu E m w) = field E backend w.
Proof. unfold field. by case_bool_decide. Qed.

(** Storing the entry of one recognized identifier leaves the entry of
    the other. *)
Lemma field_set_field (backend backend' : SupportedBackend) (b : Backend) (w : World E) :
  recognized backend -> recognized backend' ->
  field E backend (set_field E backend' b w)
  = if bool_decide (backend' = backend) then b else field E backend w.
Proof.
  unfold recognized, field, set_field.
  intros [-> | ->] [-> | ->]; reflexivity.
Qed.

(** One statement of one goroutine keeps the invariant. *)
Lemma goroutine_step_inv (w0 w w' : World E) (backend : SupportedBackend)
    (g g' : Goroutine) :
  recognized backend ->
  goroutine_step E g w = Some (w', g') ->
  httpClient w = httpClient w0 ->
  field E backend w = nil_backend \/ configured E w0 backend w (field E backend w) ->
  pc_inv E w0 backend w g ->
  httpClient w' = httpClient w0
  /\ (field E backend w' = nil_backend \/ configured E w0 backend w' (field E backend w'))
  /\ pc_inv E w0 backend w' g'
  /\ exists ext, heap w' = heap w ++ ext.
Proof.
  intros Hb Hstep Hclient Hfield Hg.
  assert (heap w = heap w ++ []) as Hsame by (by rewrite app_nil_r).
  unfold goroutine_step in Hstep. unfold pc_inv in Hg.
  destruct (at_ g) as [| | r | r | | | r | r] eqn:Hat.
  - (* the switch and RLock *)
    destruct (bool_decide (resolving g = YFinBackend) || bool_decide (resolving g = BATSBackend))
      eqn:Hrec.
    + destruct (writer (mu (backends w))); [done |].
      injection Hstep as <- <-. rewrite field_set_mu.
      split; [done |]. split; [done |]. split; [| by exists []].
      unfold pc_inv, recognized. simpl.
      apply orb_true_iff in Hrec as [?%bool_decide_eq_true_1 | ?%bool_decide_eq_true_1]; auto.
    + injection Hstep as <- <-.
      split; [done |]. split; [done |]. split; [| by exists []].
      unfold pc_inv. simpl. intros Hres.
      apply orb_false_iff in Hrec as [H1%bool_decide_eq_false_1 H2%bool_decide_eq_false_1].
      rewrite Hres in H1, H2. by destruct Hb.
  - (* the read of the entry *)
    injection Hstep as <- <-.
    split; [done |]. split; [done |]. split; [| by exists []].
    unfold pc_inv. simpl. split; [done |]. by intros ->.
  - (* RUnlock *)
    injection Hstep as <- <-. rewrite field_set_mu.
    split; [done |]. split; [done |]. split; [| by exists []].
    unfold pc_inv. simpl. destruct Hg as [? Hr]. split; [done |].
    intros Hres. destruct (Hr Hres); [by left | right].
    by apply (configured_mono w0 w _ backend r []).
  - (* the test of what was read *)
    destruct Hg as [? Hr].
    case_bool_decide as Hnil; injection Hstep as <- <-;
      (split; [done |]; split; [done |]; split; [| by exists []]); unfold pc_inv; simpl.
    + intros Hres. by destruct (Hr Hres).
    + done.
  - (* Lock *)
    destruct (writer (mu (backends w)) || negb (readers (mu (backends w)) =? 0)%nat); [done |].
    injection Hstep as <- <-. rewrite field_set_mu.
    split; [done |]. split; [| split; [done | by exists []]].
    destruct Hfield; [by left | right].
    by apply (configured_mono w0 w _ backend _ []).
  - (* the store of a fresh configuration *)
    simpl in Hstep. injection Hstep as <- <-.
    set (c := default_config E (resolving g) (base_of (resolving g)) w).
    set (w1 := set_heap E (heap w ++ [c]) w).
    assert (heap (set_field E (resolving g) (config_ptr (length (heap w))) w1) = heap w ++ [c])
      as Hheap by (unfold set_field; by case_bool_decide).
    assert (httpClient (set_field E (resolving g) (config_ptr (length (heap w))) w1) = httpClient w)
      as Hclient' by (unfold set_field; by case_bool_decide).
    assert (resolving g = backend ->
            configured E w0 backend (set_field E (resolving g) (config_ptr (length (heap w))) w1)
              (config_ptr (length (heap w)))) as Hnew.
    { intros Hres. unfold configured, deref. rewrite Hheap.
      rewrite list_lookup_middle by done. subst c. unfold default_config.
      by rewrite Hres, Hclient. }
    split; [congruence |]. split; [| split; [| by exists [c]]].
    + rewrite field_set_field by done.
      case_bool_decide as Hres; [right; by apply Hnew |].
      replace (field E backend w1) with (field E backend w)
        by (unfold field; by case_bool_decide).
      destruct Hfield as [Hnil | Hconf]; [by left | right].
      eapply configured_mono; [exact Hheap |]. done.
    + unfold pc_inv. simpl. split; [done |]. exact Hnew.
  - (* the return and the deferred Unlock *)
    injection Hstep as <- <-. rewrite field_set_mu.
    split; [done |]. split; [| split; [| by exists []]].
    + destruct Hfield; [by left | right].
      by apply (configured_mono w0 w _ backend _ []).
    + unfold pc_inv. simpl. destruct Hg as [_ Hr]. intros Hres.
      by apply (configured_mono w0 w _ backend r []), Hr.
  - done.
Qed.

Lemma schedule1_inv (w0 : World E) (backend : SupportedBackend) (i : nat)
    (sys : World E * list Goroutine) :
  recognized backend ->
  registry_inv E w0 backend sys -> registry_inv E w0 backend (schedule1 E i sys).
Proof.
  intros Hb. destruct sys as [w gs]. unfold registry_inv, schedule1. simpl.
  intros (Hclient & Hfield & Hgs).
  destruct (gs !! i) as [g |] eqn:Hi; [| done].
  destruct (goroutine_step E g w) as [[w' g'] |] eqn:Hstep; [| done].
  assert (pc_inv E w0 backend w g) as Hg.
  { rewrite Forall_forall in Hgs. apply Hgs. by eapply list_elem_of_lookup_2. }
  destruct (goroutine_step_inv w0 w w' backend g g' Hb Hstep Hclient Hfield Hg)
    as (Hclient' & Hfield' & Hg' & ext & Hheap).
  simpl. split; [done |]. split; [done |].
  apply Forall_insert; [| done].
  eapply Forall_impl; [exact Hgs |]. intros g0. by apply pc_inv_mono with ext.
Qed.

Lemma run_inv (w0 : World E) (backend : SupportedBackend) (schedule : list nat)
    (sys : World E * list Goroutine) :
  recognized backend ->
  registry_inv E w0 backend sys -> registry_inv E w0 backend (run E schedule sys).
Proof.
  intros Hb. revert sys. unfold run.
  induction schedule as [| i schedule IH]; intros sys Hinv; [done |].
  simpl. apply IH. by apply schedule1_inv.
Qed.

(** C7, amended.  For a recognized identifier whose entry is
    empty, any number of goroutines resolving any identifiers, and any
    schedule: every goroutine that has returned from resolving the
    identifier holds a pointer to a configuration with the same three
    field values, the identifier, its known base URL and the HTTP client
    that was shared at the start.  There is no second look at the entry
    under the write lock: a goroutine that holds the write lock
    constructs and stores a configuration whatever the entry holds. *)
Theorem GetBackend_concurrent (w0 : World E) (ids : list SupportedBackend)
    (schedule : list nat) (backend : SupportedBackend) :
  recognized backend ->
  field E backend w0 = nil_backend ->
  (forall g b,
      g ∈ (run E schedule (w0, resolvers ids)).2 ->
      resolving g = backend ->
      result_of g = Some b ->
      deref E (run E schedule (w0, resolvers ids)).1 b
      = Some {| Type_ := backend; URL := base_of backend; HTTPClient := httpClient w0 |})
  /\ (forall g w,
         at_ g = at_store ->
         exists w',
           goroutine_step E g w
           = Some (w', goto g (at_return (config_ptr (length (heap w)))))
           /\ heap w' = heap w ++ [default_config E (resolving g) (base_of (resolving g)) w]
           /\ field E (resolving g) w' = config_ptr (length (heap w))).
Proof.
  intros Hb Hnil. split.
  - assert (registry_inv E w0 backend (w0, resolvers ids)) as Hinit.
    { split; [done |]. split; [by left |].
      simpl. unfold resolvers. apply Forall_map, Forall_forall. by intros id _. }
    pose proof (run_inv w0 backend schedule _ Hb Hinit) as (_ & _ & Hgs).
    intros g b Hin Hres Hret. rewrite Forall_forall in Hgs.
    specialize (Hgs g Hin). unfold pc_inv in Hgs. unfold result_of in Hret.
    destruct (at_ g); try done. injection Hret as ->. by apply Hgs.
  - intros g w Hat. unfold goroutine_step. rewrite Hat. simpl.
    eexists. split; [reflexivity |]. split.
    + unfold set_field. by case_bool_decide.
    + unfold field, set_field. by case_bool_decide.
Qed.

Lemma run_cons (i : nat) (schedule : list nat) (sys : World E * list Goroutine) :
  run E (i :: schedule) sys = run E schedule (schedule1 E i sys).
Proof. reflexivity. Qed.

(** A goroutine on its own runs [GetBackend] in seven statements. *)
Lemma GetBackend_alone (backend : SupportedBackend) (w : World E) :
  mu (backends w) = {| readers := 0; writer := false |} ->
  run E (replicate 7 0%nat) (w, resolvers [backend])
  = ((GetBackend E backend w).1,
     [{| resolving := backend; at_ := returned (GetBackend E backend w).2 |}]).
Proof.
  destruct w as [lvl client [yfin bats m] hp crumb n tr].
  intros Hmu. simpl in Hmu. subst m.
  destruct (decide (backend = YFinBackend)) as [-> | Hy]; [by destruct yfin |].
  destruct (decide (backend = BATSBackend)) as [-> | Hb]; [by destruct bats |].
  change (replicate 7 0%nat) with (0%nat :: replicate 6 0%nat). rewrite run_cons.
  unfold GetBackend, resolvers, schedule1, goroutine_step. simpl.
  by rewrite !bool_decide_eq_false_2.
Qed.

End concurrency_facts.

(** C7 as the specification states it fails: two goroutines resolve [yahoo] with
    the entry empty, and each reads the entry before the other takes the
    write lock.  Both construct a configuration: the heap has two, the
    two goroutines return different pointers, and the registry keeps the
    second. *)
Lemma GetBackend_constructs_twice :
  (run stub.env stub.racy_schedule (stub.world [], stub.two_resolvers)).2
  = [{| resolving := YFinBackend; at_ := returned (config_ptr 0) |};
     {| resolving := YFinBackend; at_ := returned (config_ptr 1) |}]
  /\ length (heap (run stub.env stub.racy_schedule (stub.world [], stub.two_resolvers)).1) = 2%nat
  /\ YFin (backends (run stub.env stub.racy_schedule (stub.world [], stub.two_resolvers)).1)
     = config_ptr 1.
Proof. repeat split; reflexivity. Qed.

Lemma GetBackend_concurrent_witness :
  deref stub.env (run stub.env stub.racy_schedule (stub.world [], stub.two_resolvers)).1
    (config_ptr 0)
  = Some {| Type_ := YFinBackend; URL := yFinURL; HTTPClient := 1%nat |}
  /\ deref stub.env (run stub.env stub.racy_schedule (stub.world [], stub.two_resolvers)).1
       (config_ptr 1)
     = Some {| Type_ := YFinBackend; URL := yFinURL; HTTPClient := 1%nat |}.
Proof.
  pose proof (proj1 (GetBackend_concurrent stub.env (stub.world []) [YFinBackend; YFinBackend]
                       stub.racy_schedule YFinBackend (or_introl eq_refl) eq_refl)) as H.
  assert ((run stub.env stub.racy_schedule (stub.world [], resolvers [YFinBackend; YFinBackend])).2
          = [{| resolving := YFinBackend; at_ := returned (config_ptr 0) |};
             {| resolving := YFinBackend; at_ := returned (config_ptr 1) |}]) as Hgs
    by (vm_compute; reflexivity).
  rewrite Hgs in H. split.
  - apply (H {| resolving := YFinBackend; at_ := returned (config_ptr 0) |});
      [apply list_elem_of_here | reflexivity | reflexivity].
  - apply (H {| resolving := YFinBackend; at_ := returned (config_ptr 1) |});
      [apply list_elem_of_further, list_elem_of_here | reflexivity | reflexivity].
Defined.

(** * More facts *)

(** ** The registry, used by one goroutine *)

Section registry_more.

Variable E : Env.

Lemma field_YFin (w : World E) : field E YFinBackend w = YFin (backends w).
Proof. reflexivity. Qed.

Lemma field_Bats (w : World E) : field E BATSBackend w = Bats (backends w).
Proof. reflexivity. Qed.

(** What [GetBackend] does for a recognized identifier, in terms of the
    entry of that identifier. *)
Lemma GetBackend_recognized (backend : SupportedBackend) (w : World E) :
  recognized backend ->
  GetBackend E backend w
  = if bool_decide (field E backend w <> nil_backend) then (w, field E backend w)
    else (set_field E backend (config_ptr (length (heap w)))
            (set_heap E (heap w ++ [default_config E backend (base_of backend) w]) w),
          config_ptr (length (heap w))).
Proof. intros [-> | ->]; reflexivity. Qed.

(** The configuration behind the first resolve of an identifier whose
    entry is empty. *)
Lemma GetBackend_on_empty (backend : SupportedBackend) (w : World E) :
  recognized backend ->
  field E backend w = nil_backend ->
  deref E (GetBackend E backend w).1 (GetBackend E backend w).2
  = Some {| Type_ := backend; URL := base_of backend; HTTPClient := httpClient w |}.
Proof.
  intros Hb Hnil. rewrite (GetBackend_recognized backend w Hb), Hnil. simpl.
  destruct Hb as [-> | ->]; simpl; by rewrite list_lookup_middle.
Qed.

(** X1.  The first resolve of a recognized identifier whose entry is
    empty puts one new configuration at the end of the heap, with the
    identifier, its base URL and the shared client, stores the pointer
    in the entry of that identifier and returns it.  The entry of the
    other identifier, the mutex, the crumb, the verbosity, the shared
    client, the network and the trace are as before. *)
Theorem GetBackend_constructs (backend : SupportedBackend) (w : World E) :
  recognized backend ->
  field E backend w = nil_backend ->
  (GetBackend E backend w).2 = config_ptr (length (heap w))
  /\ heap (GetBackend E backend w).1
     = heap w ++ [{| Type_ := backend; URL := base_of backend; HTTPClient := httpClient w |}]
  /\ deref E (GetBackend E backend w).1 (GetBackend E backend w).2
     = Some {| Type_ := backend; URL := base_of backend; HTTPClient := httpClient w |}
  /\ field E backend (GetBackend E backend w).1 = (GetBackend E backend w).2
  /\ (forall other, recognized other -> other <> backend ->
        field E other (GetBackend E backend w).1 = field E other w)
  /\ mu (backends (GetBackend E backend w).1) = mu (backends w)
  /\ yCrumb (GetBackend E backend w).1 = yCrumb w
  /\ LogLevel (GetBackend E backend w).1 = LogLevel w
  /\ httpClient (GetBackend E backend w).1 = httpClient w
  /\ net (GetBackend E backend w).1 = net w
  /\ trace (GetBackend E backend w).1 = trace w.
Proof.
  intros Hb Hnil. rewrite (GetBackend_recognized backend w Hb), Hnil. simpl.
  split; [done |]. split; [by destruct Hb as [-> | ->] |].
  split.
  { destruct Hb as [-> | ->]; simpl; by rewrite list_lookup_middle. }
  split; [by destruct Hb as [-> | ->] |].
  split.
  { intros other [-> | ->] Hne; destruct Hb as [-> | ->]; done. }
  by destruct Hb as [-> | ->].
Qed.

(** What a resolve of a recognized identifier returns is in its entry. *)
Lemma GetBackend_sets_entry (backend : SupportedBackend) (w : World E) :
  recognized backend ->
  (GetBackend E backend w).2 <> nil_backend
  /\ field E backend (GetBackend E backend w).1 = (GetBackend E backend w).2.
Proof.
  intros Hb. rewrite (GetBackend_recognized backend w Hb).
  case_bool_decide as Hf; simpl; [done |].
  split; [done |]. by destruct Hb as [-> | ->].
Qed.

(** X2.  [GetBackend] never returns [nil] for a recognized identifier,
    and leaves its entry set to what it returns. *)
Theorem GetBackend_not_nil (backend : SupportedBackend) (w : World E) :
  recognized backend ->
  (GetBackend E backend w).2 <> nil_backend
  /\ field E backend (GetBackend E backend w).1 = (GetBackend E backend w).2.
Proof.
  intros Hb. rewrite (GetBackend_recognized backend w Hb).
  destruct (decide (field E backend w = nil_backend)) as [Hnil | Hset].
  - rewrite Hnil. simpl. split; [done |]. by destruct Hb as [-> | ->].
  - by rewrite bool_decide_eq_true_2.
Qed.

(** X3.  Resolving twice is resolving once: the second call returns
    what the first returned and changes nothing, for every identifier
    and every world.  So a program that only resolves holds one
    configuration per identifier. *)
Theorem GetBackend_idempotent (backend : SupportedBackend) (w : World E) :
  GetBackend E backend (GetBackend E backend w).1
  = ((GetBackend E backend w).1, (GetBackend E backend w).2).
Proof.
  destruct (decide (recognized backend)) as [Hb | Hno].
  - destruct (GetBackend_sets_entry backend w Hb) as [Hnil Hf].
    rewrite (GetBackend_recognized backend (GetBackend E backend w).1 Hb), Hf.
    by rewrite bool_decide_eq_true_2.
  - unfold GetBackend, recognized in *.
    rewrite !bool_decide_eq_false_2; [done | tauto..].
Qed.

(** X4.  [SetBackend] and [GetBackend] round trip.  An unrecognized
    identifier is ignored.  For a recognized one, a backend that is not
    [nil] is what the next resolve returns, and nothing is constructed;
    after [SetBackend] with [nil] the next resolve constructs the
    default configuration again, with the client that is shared then. *)
Theorem SetBackend_GetBackend (backend : SupportedBackend) (b : Backend) (w : World E) :
  (~ recognized backend -> SetBackend E backend b w = (w, tt))
  /\ (recognized backend -> b <> nil_backend ->
      GetBackend E backend (SetBackend E backend b w).1 = ((SetBackend E backend b w).1, b)
      /\ heap (SetBackend E backend b w).1 = heap w)
  /\ (recognized backend ->
      deref E (GetBackend E backend (SetBackend E backend nil_backend w).1).1
        (GetBackend E backend (SetBackend E backend nil_backend w).1).2
      = Some {| Type_ := backend; URL := base_of backend; HTTPClient := httpClient w |}).
Proof.
  split; [| split].
  - intros Hno. unfold SetBackend, recognized in *.
    rewrite !bool_decide_eq_false_2; [done | tauto..].
  - intros Hb Hnil.
    assert (field E backend (SetBackend E backend b w).1 = b) as Hf
      by (by destruct Hb as [-> | ->]).
    rewrite (GetBackend_recognized backend _ Hb), Hf.
    rewrite bool_decide_eq_true_2 by done.
    split; [done |]. by destruct Hb as [-> | ->].
  - intros Hb.
    assert (field E backend (SetBackend E backend nil_backend w).1 = nil_backend) as Hf
      by (by destruct Hb as [-> | ->]).
    rewrite (GetBackend_on_empty backend _ Hb Hf).
    by destruct Hb as [-> | ->].
Qed.

(** X5.  [SetHTTPClient] reaches the configurations that are constructed
    after it and no other: a backend that was resolved before keeps the
    client it was constructed with, and a resolve after the call returns
    that same backend; an identifier that is first resolved after the
    call gets the new client. *)
Theorem SetHTTPClient_later_only (backend : SupportedBackend) (client : http.Client)
    (w : World E) :
  recognized backend ->
  (let w1 := (GetBackend E backend w).1 in
   let w2 := (SetHTTPClient E client w1).1 in
   GetBackend E backend w2 = (w2, (GetBackend E backend w).2)
   /\ deref E w2 (GetBackend E backend w).2 = deref E w1 (GetBackend E backend w).2)
  /\ (field E backend w = nil_backend ->
      let w2 := (SetHTTPClient E client w).1 in
      deref E (GetBackend E backend w2).1 (GetBackend E backend w2).2
      = Some {| Type_ := backend; URL := base_of backend; HTTPClient := client |}).
Proof.
  intros Hb. split.
  - destruct (GetBackend_sets_entry backend w Hb) as [Hnil Hf]. cbv zeta.
    change ((SetHTTPClient E client (GetBackend E backend w).1).1)
      with (set_httpClient E client (GetBackend E backend w).1).
    rewrite (GetBackend_recognized backend _ Hb).
    assert (field E backend (set_httpClient E client (GetBackend E backend w).1)
            = field E backend (GetBackend E backend w).1) as ->
      by (by destruct Hb as [-> | ->]).
    rewrite Hf. by rewrite bool_decide_eq_true_2.
  - intros Hnil. cbv zeta.
    change ((SetHTTPClient E client w).1) with (set_httpClient E client w).
    assert (field E backend (set_httpClient E client w) = nil_backend) as Hf
      by (by destruct Hb as [-> | ->]).
    by rewrite (GetBackend_on_empty backend _ Hb Hf).
Qed.

(** X6.  [NewBackends] constructs two configurations with the client it
    is given and returns a struct that points to them; the registry of
    the package is not touched, so a later [GetBackend] does not see
    them.  With the shared client and [YFinURL] as initialised, the two
    configurations have the field values of the ones [GetBackend]
    constructs. *)
Theorem NewBackends_fresh (url_now : string) (client : http.Client) (w : World E) :
  let r := NewBackends E url_now client w in
  deref E r.1 (YFin r.2) = Some {| Type_ := YFinBackend; URL := url_now; HTTPClient := client |}
  /\ deref E r.1 (Bats r.2) = Some {| Type_ := BATSBackend; URL := BATSURL; HTTPClient := client |}
  /\ YFin r.2 <> Bats r.2
  /\ deref E w (YFin r.2) = None /\ deref E w (Bats r.2) = None
  /\ (forall b c, deref E w b = Some c -> deref E r.1 b = Some c)
  /\ backends r.1 = backends w
  /\ yCrumb r.1 = yCrumb w /\ net r.1 = net w /\ trace r.1 = trace w
  /\ (url_now = YFinURL -> client = httpClient w ->
      deref E r.1 (YFin r.2) = Some (default_config E YFinBackend (base_of YFinBackend) w)
      /\ deref E r.1 (Bats r.2) = Some (default_config E BATSBackend (base_of BATSBackend) w)).
Proof.
  unfold NewBackends, bind, ret, alloc. simpl.
  assert (deref E w (config_ptr (length (heap w))) = None) as Hfresh1
    by (simpl; by apply lookup_ge_None_2).
  assert (deref E w (config_ptr (length (heap w ++ [{| Type_ := YFinBackend; URL := url_now;
                                                       HTTPClient := client |}]))) = None)
    as Hfresh2.
  { simpl. apply lookup_ge_None_2. rewrite length_app. simpl. lia. }
  assert ((heap w ++ [{| Type_ := YFinBackend; URL := url_now; HTTPClient := client |}]
           ++ [{| Type_ := BATSBackend; URL := BATSURL; HTTPClient := client |}])
          !! length (heap w)
          = Some {| Type_ := YFinBackend; URL := url_now; HTTPClient := client |}) as H1
    by (simpl; by rewrite list_lookup_middle).
  rewrite <- app_assoc.
  assert ((heap w ++ [{| Type_ := YFinBackend; URL := url_now; HTTPClient := client |}]
           ++ [{| Type_ := BATSBackend; URL := BATSURL; HTTPClient := client |}])
          !! length (heap w ++ [{| Type_ := YFinBackend; URL := url_now; HTTPClient := client |}])
          = Some {| Type_ := BATSBackend; URL := BATSURL; HTTPClient := client |}) as H2.
  { rewrite app_assoc. by rewrite list_lookup_middle. }
  split; [done |]. split; [done |].
  split. { rewrite length_app. simpl. intros [= Heq]. lia. }
  split; [done |]. split; [done |].
  split. { intros [| a |] c; simpl; try done. intros Ha. by apply lookup_app_l_Some. }
  split; [done |]. split; [done |]. split; [done |]. split; [done |].
  intros -> ->. by rewrite H1, H2.
Qed.

End registry_more.

Lemma GetBackend_constructs_witness :
  recognized BATSBackend
  /\ field stub.env BATSBackend (stub.world []) = nil_backend
  /\ (GetBackend stub.env BATSBackend (stub.world [])).2 = config_ptr 0
  /\ heap (GetBackend stub.env BATSBackend (stub.world [])).1
     = [{| Type_ := "bats"; URL := ""; HTTPClient := 1%nat |}].
Proof.
  split; [by right |]. split; [reflexivity |].
  destruct (GetBackend_constructs stub.env BATSBackend (stub.world []) (or_intror eq_refl)
              eq_refl) as (Hptr & Hheap & _).
  split; [exact Hptr | exact Hheap].
Defined.

Lemma GetBackend_not_nil_witness :
  recognized YFinBackend
  /\ (GetBackend stub.env YFinBackend (stub.world [])).2 <> nil_backend.
Proof.
  split; [by left |].
  exact (proj1 (GetBackend_not_nil stub.env YFinBackend (stub.world []) (or_introl eq_refl))).
Defined.

Lemma SetBackend_GetBackend_witness :
  recognized YFinBackend
  /\ other_backend 7 <> nil_backend
  /\ (GetBackend stub.env YFinBackend
        (SetBackend stub.env YFinBackend (other_backend 7) (stub.world [])).1).2
     = other_backend 7.
Proof.
  split; [by left |]. split; [discriminate |].
  destruct (proj1 (proj2 (SetBackend_GetBackend stub.env YFinBackend (other_backend 7)
                            (stub.world []))) (or_introl eq_refl)) as [Hget _];
    [discriminate |].
  by rewrite Hget.
Defined.

Lemma SetHTTPClient_later_only_witness :
  recognized YFinBackend
  /\ deref stub.env
       (SetHTTPClient stub.env 2%nat (GetBackend stub.env YFinBackend (stub.world [])).1).1
       (GetBackend stub.env YFinBackend (stub.world [])).2
     = Some {| Type_ := YFinBackend; URL := yFinURL; HTTPClient := 1%nat |}.
Proof.
  split; [by left |].
  destruct (proj1 (SetHTTPClient_later_only stub.env YFinBackend 2%nat (stub.world [])
                     (or_introl eq_refl))) as [_ Hsame].
  exact (eq_trans Hsame eq_refl).
Defined.

(** ** The request pipeline: what it leaves alone, and the log *)

Section pipeline_more.

Variable E : Env.

Lemma logs_app (a b : list Event) : logs (a ++ b) = logs a ++ logs b.
Proof. apply omap_app. Qed.

Lemma pipeline_frame_refl (w : World E) : pipeline_frame E w w.
Proof. repeat split; try done. exists []. by rewrite app_nil_r. Qed.

Lemma pipeline_frame_trans (w1 w2 w3 : World E) :
  pipeline_frame E w1 w2 -> pipeline_frame E w2 w3 -> pipeline_frame E w1 w3.
Proof.
  intros (Hl & Hc & Hb & Hh & (evs & Ht) & Hq) (Hl' & Hc' & Hb' & Hh' & (evs' & Ht') & Hq').
  repeat split; try congruence.
  - exists (evs ++ evs'). by rewrite Ht', Ht, app_assoc.
  - intros Hle. rewrite Hq' by lia. by apply Hq.
Qed.

Lemma framed_ret {A : Type} (a : A) : framed E (ret a).
Proof. intros w. apply pipeline_frame_refl. Qed.

Lemma framed_bind {A B : Type} (m : M (World E) A) (k : A -> M (World E) B) :
  framed E m -> (forall a, framed E (k a)) -> framed E (bind m k).
Proof.
  intros Hm Hk w. unfold bind. specialize (Hm w).
  destruct (m w) as [w1 a]. eapply pipeline_frame_trans; [exact Hm | apply Hk].
Qed.

Lemma framed_logf (threshold : Z) (format : string) (operands : list fmt.arg) :
  0 <= threshold ->
  framed E (logf E threshold format operands).
Proof.
  intros Hpos w. unfold logf. destruct (LogLevel w >? threshold) eqn:Hgt; simpl.
  - repeat split; try done; [by eexists |]. intros Hle. lia.
  - apply pipeline_frame_refl.
Qed.

Lemma framed_Client_Do (client : http.Client) (req : http.Request) :
  framed E (Client_Do E client req).
Proof.
  intros w. unfold Client_Do. destruct (client_Do E client req (net w)) as [n r]. simpl.
  repeat split; try done; [by eexists |]. intros _. simpl. by rewrite logs_app, app_nil_r.
Qed.

Lemma framed_json_Unmarshal' (data : string) (dest : Dest E) :
  framed E (json_Unmarshal' E data dest).
Proof.
  intros w. rewrite json_Unmarshal'_frame. simpl.
  repeat split; try done; [by eexists |]. intros _. simpl. by rewrite logs_app, app_nil_r.
Qed.

Lemma framed_getYahooCrumb (client : http.Client) : framed E (getYahooCrumb E client).
Proof.
  unfold getYahooCrumb.
  repeat first
    [ apply framed_ret | apply framed_Client_Do
    | apply framed_bind; [| intros ?]
    | match goal with
      | |- framed _ (match ?x with _ => _ end) => destruct x
      end ].
Qed.

Lemma framed_addCrumb (s : BackendConfiguration) (req : http.Request) :
  framed E (addCrumb E s req).
Proof.
  unfold addCrumb.
  repeat first
    [ apply framed_ret | apply framed_getYahooCrumb
    | apply framed_bind; [| intros ?]
    | match goal with
      | |- framed _ (if ?b then _ else _) => destruct b
      | |- framed _ (match ?x with _ => _ end) => destruct x
      end
    | by (intros w; repeat split; try done; exists []; by rewrite app_nil_r) ].
Qed.

Lemma framed_handleResponse (res : http.Response) (req : http.Request) (v : option (Dest E)) :
  framed E (handleResponse E res req v).
Proof.
  unfold handleResponse.
  repeat first
    [ apply framed_ret | by apply framed_logf | apply framed_json_Unmarshal'
    | apply framed_bind; [| intros ?]
    | match goal with
      | |- framed _ (if ?b then _ else _) => destruct b
      | |- framed _ (match ?x with _ => _ end) => destruct x
      end ].
Qed.

Lemma framed_Do (s : BackendConfiguration) (req : http.Request) (v : option (Dest E)) :
  framed E (Do E s req v).
Proof.
  unfold Do, logRequest.
  repeat first
    [ apply framed_ret | by apply framed_logf | apply framed_addCrumb
    | apply framed_Client_Do | apply framed_handleResponse
    | apply framed_bind; [| intros ?]
    | match goal with
      | |- framed _ (match ?x with _ => _ end) => destruct x
      end ].
Qed.

Lemma framed_NewRequest (s : BackendConfiguration) (method path : string)
    (ctx : option http.Context) :
  framed E (NewRequest E s method path ctx).
Proof.
  unfold NewRequest. cbv zeta.
  repeat first
    [ apply framed_ret | by apply framed_logf
    | apply framed_bind; [| intros ?]
    | match goal with
      | |- framed _ (match ?x with _ => _ end) => destruct x
      end ].
Qed.

Lemma framed_Call (s : BackendConfiguration) (path : string) (form : option (FormValues E))
    (ctx : option http.Context) (v : option (Dest E)) :
  framed E (Call E s path form ctx v).
Proof.
  unfold Call. cbv zeta.
  repeat first
    [ apply framed_ret | apply framed_NewRequest | apply framed_Do
    | apply framed_bind; [| intros ?]
    | match goal with
      | |- framed _ (match ?x with _ => _ end) => destruct x
      end ].
Qed.

(** X7.  The request pipeline ([NewRequest], the handshake, [Do] and
    [Call]) never assigns the verbosity or the shared client and never
    touches the registry or the heap; what was logged, sent and decoded
    before stays in the trace; and with the verbosity at zero or below
    it logs nothing. *)
Theorem pipeline_keeps_frame (s : BackendConfiguration) (w : World E) :
  (forall method path ctx, pipeline_frame E w (NewRequest E s method path ctx w).1)
  /\ pipeline_frame E w (getYahooCrumb E (HTTPClient s) w).1
  /\ (forall req v, pipeline_frame E w (Do E s req v w).1)
  /\ (forall path form ctx v, pipeline_frame E w (Call E s path form ctx v w).1).
Proof.
  split; [intros; apply framed_NewRequest |].
  split; [apply framed_getYahooCrumb |].
  split; [intros; apply framed_Do | intros; apply framed_Call].
Qed.

End pipeline_more.

(** ** The verbosity does not change what a program does *)

Section logging_more.

Variable E : Env.

Lemma level_blind_ret {A : Type} (a : A) : level_blind E (ret a).
Proof. by intros w w' Hq. Qed.

Lemma level_blind_bind {A B : Type} (m : M (World E) A) (k : A -> M (World E) B) :
  level_blind E m -> (forall a, level_blind E (k a)) -> level_blind E (bind m k).
Proof.
  intros Hm Hk w w' Hq. unfold bind. destruct (Hm w w' Hq) as [Hq1 Ha].
  destruct (m w) as [w1 a], (m w') as [w1' a']. simpl in *. subst a'.
  by apply Hk.
Qed.

Lemma level_blind_logf (threshold : Z) (format : string) (operands : list fmt.arg) :
  level_blind E (logf E threshold format operands).
Proof.
  intros w w' (Hl & Hc & Hb & Hh & Hy & Hn & Hr & Hd & Hs). unfold logf.
  destruct (LogLevel w >? threshold) eqn:Hgt, (LogLevel w' >? threshold) eqn:Hgt';
    simpl; (split; [| done]); repeat split; simpl; try done; try lia;
    rewrite ?round_trips_app, ?decodes_app, ?logs_app; simpl; rewrite ?app_nil_r; try done.
  - by apply sublist_app.
  - by apply sublist_inserts_r.
Qed.

Lemma level_blind_Client_Do (client : http.Client) (req : http.Request) :
  level_blind E (Client_Do E client req).
Proof.
  intros w w' (Hl & Hc & Hb & Hh & Hy & Hn & Hr & Hd & Hs). unfold Client_Do.
  rewrite Hn. destruct (client_Do E client req (net w')) as [n r]. simpl.
  split; [| done]. repeat split; simpl; try done;
    rewrite ?round_trips_app, ?decodes_app, ?logs_app; simpl; rewrite ?app_nil_r; congruence.
Qed.

Lemma level_blind_json_Unmarshal' (data : string) (dest : Dest E) :
  level_blind E (json_Unmarshal' E data dest).
Proof.
  intros w w' (Hl & Hc & Hb & Hh & Hy & Hn & Hr & Hd & Hs).
  rewrite !json_Unmarshal'_frame. simpl.
  split; [| done]. repeat split; simpl; try done;
    rewrite ?round_trips_app, ?decodes_app, ?logs_app; simpl; rewrite ?app_nil_r; congruence.
Qed.

Lemma level_blind_read_crumb : level_blind E (fun w => (w, yCrumb w)).
Proof. intros w w' Hq. split; [done |]. apply Hq. Qed.

Lemma level_blind_write_crumb {A : Type} (crumb : string) (a : A) :
  level_blind E (fun w => (set_yCrumb E crumb w, a)).
Proof.
  intros w w' (Hl & Hc & Hb & Hh & Hy & Hn & Hr & Hd & Hs). by repeat split.
Qed.

Ltac blind_step :=
  first
    [ apply level_blind_ret | apply level_blind_logf | apply level_blind_Client_Do
    | apply level_blind_json_Unmarshal' | apply level_blind_read_crumb
    | apply level_blind_write_crumb
    | apply level_blind_bind; [| intros ?]
    | match goal with
      | |- level_blind _ (if ?b then _ else _) => destruct b
      | |- level_blind _ (match ?x with _ => _ end) => destruct x
      end ].

Lemma level_blind_getYahooCrumb (client : http.Client) : level_blind E (getYahooCrumb E client).
Proof. unfold getYahooCrumb. repeat blind_step. Qed.

Lemma level_blind_addCrumb (s : BackendConfiguration) (req : http.Request) :
  level_blind E (addCrumb E s req).
Proof. unfold addCrumb. repeat first [apply level_blind_getYahooCrumb | blind_step]. Qed.

Lemma level_blind_handleResponse (res : http.Response) (req : http.Request)
    (v : option (Dest E)) :
  level_blind E (handleResponse E res req v).
Proof. unfold handleResponse. repeat blind_step. Qed.

Lemma level_blind_Do (s : BackendConfiguration) (req : http.Request) (v : option (Dest E)) :
  level_blind E (Do E s req v).
Proof.
  unfold Do, logRequest.
  repeat first [apply level_blind_addCrumb | apply level_blind_handleResponse | blind_step].
Qed.

Lemma level_blind_NewRequest (s : BackendConfiguration) (method path : string)
    (ctx : option http.Context) :
  level_blind E (NewRequest E s method path ctx).
Proof. unfold NewRequest. cbv zeta. repeat blind_step. Qed.

Lemma level_blind_Call (s : BackendConfiguration) (path : string)
    (form : option (FormValues E)) (ctx : option http.Context) (v : option (Dest E)) :
  level_blind E (Call E s path form ctx v).
Proof.
  unfold Call. cbv zeta.
  repeat first [apply level_blind_NewRequest | apply level_blind_Do | blind_step].
Qed.

Lemma level_blind_GetBackend (backend : SupportedBackend) : level_blind E (GetBackend E backend).
Proof.
  intros w w' (Hl & Hc & Hb & Hh & Hy & Hn & Hr & Hd & Hs).
  unfold GetBackend, alloc, default_config. rewrite Hb, Hh, Hc.
  repeat case_bool_decide; simpl; (split; [| done]); repeat split; simpl; congruence.
Qed.

Lemma level_blind_SetBackend (backend : SupportedBackend) (b : Backend) :
  level_blind E (SetBackend E backend b).
Proof.
  intros w w' (Hl & Hc & Hb & Hh & Hy & Hn & Hr & Hd & Hs).
  unfold SetBackend.
  repeat case_bool_decide; simpl; (split; [| done]); repeat split; simpl; congruence.
Qed.

Lemma level_blind_SetHTTPClient (client : http.Client) : level_blind E (SetHTTPClient E client).
Proof.
  intros w w' (Hl & Hc & Hb & Hh & Hy & Hn & Hr & Hd & Hs). by repeat split.
Qed.

Lemma level_blind_run_call (c : api_call E) : level_blind E (run_call E c).
Proof.
  destruct c; simpl;
    repeat first
      [ apply level_blind_SetHTTPClient | apply level_blind_GetBackend
      | apply level_blind_SetBackend | apply level_blind_NewRequest
      | apply level_blind_Do | apply level_blind_Call | blind_step ].
Qed.

Lemma level_blind_run_calls (calls : list (api_call E)) : level_blind E (run_calls E calls).
Proof.
  induction calls as [| c calls IH]; simpl; [apply level_blind_ret |].
  apply level_blind_bind; [apply level_blind_run_call | by intros _].
Qed.

(** X8.  Logging is a side channel.  Take two worlds that differ in
    verbosity only, the second at least as verbose as the first.  Every
    call of [Do] and of [Call] returns the same in both (error, request
    and destination), and after any program that uses the package the
    two worlds again differ in the log only: same crumb, registry, heap,
    shared client and network state, same requests sent and same bodies
    decoded.  Every line logged at the lower verbosity is logged at the
    higher one, in the same order. *)
Theorem logging_is_a_side_channel (w w' : World E) :
  quieter E w w' ->
  (forall calls, quieter E (run_calls E calls w).1 (run_calls E calls w').1)
  /\ (forall s req v, (Do E s req v w).2 = (Do E s req v w').2)
  /\ (forall s path form ctx v, (Call E s path form ctx v w).2 = (Call E s path form ctx v w').2).
Proof.
  intros Hq. split; [| split].
  - intros calls. by apply level_blind_run_calls.
  - intros s req v. by apply level_blind_Do.
  - intros s path form ctx v. by apply level_blind_Call.
Qed.

End logging_more.

(** ** The handshake on the wire *)

Section handshake_more.

Variable E : Env.



End handshake_more.


(** ** The call executor, case by case *)

Section executor_more.

Variable E : Env.

(** [Do] from the round trip on: the request that lines 258-270 made is
    sent next, and what follows depends on what the client returns.
    Nothing has been decoded by then. *)
Lemma Do_round_trip (s : BackendConfiguration) (req : http.Request) (v : option (Dest E))
    (w w1 : World E) (req1 : http.Request) (n : Transport E)
    (r : string + http.Response) :
  addCrumb E s req (logRequest E req w).1 = (w1, inr req1) ->
  client_Do E (HTTPClient s) req1 (net w1) = (n, r) ->
  exists w3,
    decodes (trace w3) = decodes (trace w) /\ net w3 = n
    /\ Do E s req v w
       = match r with
         | inl text =>
             ((logf E 0 ("Request to api failed: %v" +:+ nl) [fmt.Str text] w3).1,
              {| err := Some (LibError net_http text); req_out := req1; v_out := v |})
         | inr res => handleResponse E res req1 v w3
         end.
Proof.
  intros Hadd Hdo. unfold Do, bind, ret.
  destruct (logRequest_frame E req w) as (_ & _ & evs0 & Ht0 & _ & Hd0).
  destruct (logRequest E req w) as [w0 []]. simpl in *. rewrite Hadd.
  destruct (addCrumb_frame E s req w0) as [(evs1 & Ht1 & Hd1) _].
  rewrite Hadd in Ht1. simpl in Ht1.
  unfold Client_Do. rewrite Hdo.
  pose proof (logf_frame E 2 ("Completed in %v" +:+ nl) []
                (set_net E n (emit E (RoundTrip (HTTPClient s) req1) w1))) as F.
  destruct (logf E 2 _ _ (set_net E n (emit E (RoundTrip (HTTPClient s) req1) w1)))
    as [w3 []]. simpl in F. destruct F as (_ & Hn & evs & Ht & _ & Hd).
  exists w3. split; [| split; [done |]].
  - rewrite Ht, Ht1, Ht0, !decodes_app, Hd0, Hd1, Hd. simpl. by rewrite !app_nil_r.
  - destruct r as [text | res]; [| done]. simpl.
    by destruct (logf E 0 _ _ w3) as [w4 []].
Qed.

(** X10.  For a backend other than yahoo, [Do] does not look at the
    crumb: whatever the cache holds, it runs no handshake, leaves the
    cache as it is and makes one round trip, with the request exactly
    as the caller built it. *)
Theorem Do_other_backend (s : BackendConfiguration) (req : http.Request)
    (v : option (Dest E)) (w : World E) :
  Type_ s <> YFinBackend ->
  yCrumb (Do E s req v w).1 = yCrumb w
  /\ round_trips (trace (Do E s req v w).1) = round_trips (trace w) ++ [(HTTPClient s, req)]
  /\ req_out (Do E s req v w).2 = req.
Proof.
  intros Hs.
  destruct (logRequest_frame E req w) as (Hc0 & _ & evs0 & Ht0 & Hr0 & _).
  destruct (Do_sends E s req v w _ _ (addCrumb_other E s req _ Hs))
    as (Hy & (evs & Ht & Hr) & Hout).
  split; [congruence |]. split; [| done].
  by rewrite Ht, Ht0, !round_trips_app, Hr0, Hr, app_nil_r.
Qed.

(** X11.  When the round trip of the request fails, [Do] returns the
    client's error as it is; the destination is as the caller left it
    and nothing is decoded. *)
Theorem Do_transport_error (s : BackendConfiguration) (req : http.Request)
    (v : option (Dest E)) (w w1 : World E) (req1 : http.Request) (n : Transport E)
    (text : string) :
  addCrumb E s req (logRequest E req w).1 = (w1, inr req1) ->
  client_Do E (HTTPClient s) req1 (net w1) = (n, inl text) ->
  (Do E s req v w).2
  = {| err := Some (LibError net_http text); req_out := req1; v_out := v |}
  /\ decodes (trace (Do E s req v w).1) = decodes (trace w)
  /\ net (Do E s req v w).1 = n.
Proof.
  intros Hadd Hdo.
  destruct (Do_round_trip s req v w w1 req1 n _ Hadd Hdo) as (w3 & Hd & Hn & ->).
  destruct (logf_frame E 0 ("Request to api failed: %v" +:+ nl) [fmt.Str text] w3)
    as (_ & Hn' & evs & Ht & _ & Hd').
  simpl. split; [done |]. split; [| congruence].
  by rewrite Ht, decodes_app, Hd', app_nil_r.
Qed.

(** X12.  When the body of the response cannot be read to the end, [Do]
    returns the read error as it is, whatever the status of the
    response: also for a status of 400 or more the error is no
    [RemoteError].  The destination is as the caller left it and nothing
    is decoded. *)
Theorem Do_body_read_error (s : BackendConfiguration) (req : http.Request)
    (v : option (Dest E)) (w w1 : World E) (req1 : http.Request) (n : Transport E)
    (res : http.Response) (text : string) :
  addCrumb E s req (logRequest E req w).1 = (w1, inr req1) ->
  client_Do E (HTTPClient s) req1 (net w1) = (n, inr res) ->
  http.Body res = http.Broken text ->
  (Do E s req v w).2
  = {| err := Some (LibError io_read text); req_out := req1; v_out := v |}
  /\ decodes (trace (Do E s req v w).1) = decodes (trace w).
Proof.
  intros Hadd Hdo Hbody.
  destruct (Do_round_trip s req v w w1 req1 n _ Hadd Hdo) as (w3 & Hd & Hn & ->).
  pose proof (handleResponse_cases E res req1 v w3) as Hc.
  rewrite Hbody in Hc. simpl in Hc. destruct Hc as [-> Hd'].
  split; [done | congruence].
Qed.

(** X13.  When [Do] receives a response with a status below 400 and the
    caller gave no destination, it returns no error and hands nothing to
    the decoder: the body is read and dropped, whatever it is. *)
Theorem Do_nil_destination (s : BackendConfiguration) (req : http.Request)
    (w w2 : World E) (req1 : http.Request) (status : Z) (body : string) :
  received E s req w = Some (w2, req1, status, body) ->
  status < 400 ->
  (Do E s req None w).2 = {| err := None; req_out := req1; v_out := None |}
  /\ decodes (trace (Do E s req None w).1) = decodes (trace w).
Proof.
  intros Hrec Hlt.
  destruct (Do_received E s req None w w2 req1 status body Hrec)
    as (w3 & res & -> & Hstatus & Hbody & Hd).
  pose proof (handleResponse_cases E res req1 None w3) as Hc.
  rewrite Hbody, Hstatus in Hc. simpl in Hc.
  replace (status >=? 400) with false in Hc by lia.
  destruct Hc as [-> Hd']. split; [done | congruence].
Qed.

(** X14.  [Do] rewrites the query of the request it is given, and adds
    the crumb without looking for one: handing the request of a yahoo
    call to [Do] again gives it the crumb a second time.  Every other
    value of every key is kept. *)
Theorem Do_again_adds_crumb_again (s : BackendConfiguration) (req : http.Request)
    (v v' : option (Dest E)) (w : World E) :
  Type_ s = YFinBackend ->
  yCrumb w <> EmptyString ->
  forall k : string,
    url.index (url.Query (http.URL
      (req_out (Do E s (req_out (Do E s req v w).2) v' (Do E s req v w).1).2))) k
    = url.index (url.Query (http.URL req)) k
      ++ (if bool_decide (k = "crumb") then [yCrumb w; yCrumb w] else []).
Proof.
  intros Hs Hc k.
  destruct (Do_cached E s req v w Hc) as (Hy & _ & Hout).
  assert (yCrumb (Do E s req v w).1 <> EmptyString) as Hc1 by congruence.
  destruct (Do_cached E s (req_out (Do E s req v w).2) v' _ Hc1) as (_ & _ & Hout').
  rewrite Hout', Hout, Hy. unfold with_crumb.
  rewrite (bool_decide_eq_true_2 _ Hs). unfold url.Query. simpl.
  rewrite !Query_after_Add, <- app_assoc. by case_bool_decide.
Qed.


End executor_more.

Lemma Do_other_backend_witness :
  Type_ stub.bats <> YFinBackend
  /\ round_trips (trace (Do stub.env stub.bats stub.quote_request None (stub.world [])).1)
     = [(1%nat, stub.quote_request)].
Proof.
  split; [discriminate |].
  destruct (Do_other_backend stub.env stub.bats stub.quote_request None (stub.world []))
    as (_ & Hsent & _); [discriminate |].
  exact Hsent.
Defined.

Lemma Do_transport_error_witness :
  (Do stub.env stub.bats stub.quote_request (Some 7) (stub.world [])).2
  = Build_DoResult stub.env (Some (LibError net_http "EOF")) stub.quote_request (Some 7).
Proof.
  destruct (Do_transport_error stub.env stub.bats stub.quote_request (Some 7) (stub.world [])
              (stub.world []) stub.quote_request [] "EOF" eq_refl eq_refl) as [Hres _].
  exact Hres.
Defined.

Lemma Do_body_read_error_witness :
  err (Do stub.env stub.bats stub.quote_request (Some 7) (stub.world [samples.broken 500])).2
  = Some (LibError io_read "unexpected EOF").
Proof.
  destruct (Do_body_read_error stub.env stub.bats stub.quote_request (Some 7)
              (stub.world [samples.broken 500]) (stub.world [samples.broken 500])
              stub.quote_request []
              {| http.StatusCode := 500; http.Body := http.Broken "unexpected EOF" |}
              "unexpected EOF" eq_refl eq_refl eq_refl) as [Hres _].
  exact (f_equal err Hres).
Defined.

Lemma Do_nil_destination_witness :
  (Do stub.env stub.bats stub.quote_request None (stub.world [stub.ok 204 "not json"])).2
  = Build_DoResult stub.env None stub.quote_request None.
Proof.
  edestruct (Do_nil_destination stub.env stub.bats stub.quote_request
               (stub.world [stub.ok 204 "not json"])) as [Hres _];
    [reflexivity | simpl; lia |].
  exact Hres.
Defined.

Lemma Do_again_adds_crumb_again_witness :
  url.RawQuery (http.URL
    (req_out (Do stub.env stub.yahoo
                (req_out (Do stub.env stub.yahoo stub.quote_request None (stub.cached [])).2)
                None (Do stub.env stub.yahoo stub.quote_request None (stub.cached [])).1).2))
  = "crumb=tok&crumb=tok&symbols=AAPL%2CMSFT"
  /\ url.index (url.Query (http.URL
       (req_out (Do stub.env stub.yahoo
                   (req_out (Do stub.env stub.yahoo stub.quote_request None (stub.cached [])).2)
                   None (Do stub.env stub.yahoo stub.quote_request None (stub.cached [])).1).2)))
       "crumb"
     = ["tok"; "tok"].
Proof.
  split; [vm_compute; reflexivity |].
  exact (Do_again_adds_crumb_again stub.env stub.yahoo stub.quote_request None None
           (stub.cached []) eq_refl ltac:(discriminate) "crumb").
Defined.


(** ** The registry, several goroutines: the mutex *)

Section mutex_more.

Variable E : Env.

Lemma count_cons (P : Goroutine -> bool) (g : Goroutine) (gs : list Goroutine) :
  count P (g :: gs) = ((if P g then 1 else 0) + count P gs)%nat.
Proof.
  unfold count. rewrite filter_cons.
  destruct (P g); case_decide; simpl; congruence.
Qed.

Lemma count_pos (P : Goroutine -> bool) (gs : list Goroutine) (k : nat) (y : Goroutine) :
  gs !! k = Some y -> P y = true -> (0 < count P gs)%nat.
Proof.
  revert k. induction gs as [| z gs IH]; intros k Hk Hy; [done |].
  rewrite count_cons. destruct k as [| k]; simpl in Hk.
  - injection Hk as ->. rewrite Hy. lia.
  - specialize (IH k Hk Hy). lia.
Qed.

(** Replacing one goroutine changes a count by that goroutine only. *)
Lemma count_insert (P : Goroutine -> bool) (gs : list Goroutine) (i : nat)
    (g g' : Goroutine) :
  gs !! i = Some g ->
  (count P (<[i := g']> gs) + (if P g then 1 else 0)
   = count P gs + (if P g' then 1 else 0))%nat.
Proof.
  revert i. induction gs as [| x gs IH]; intros i Hi; [done |].
  destruct i as [| i]; simpl in *.
  - injection Hi as ->. rewrite !count_cons. lia.
  - rewrite !count_cons. specialize (IH i Hi). lia.
Qed.

Lemma count_exists (P : Goroutine -> bool) (gs : list Goroutine) :
  (0 < count P gs)%nat -> exists i g, gs !! i = Some g /\ P g = true.
Proof.
  induction gs as [| x gs IH]; [unfold count; simpl; lia |].
  rewrite count_cons. destruct (P x) eqn:Hx.
  - intros _. by exists 0%nat, x.
  - intros Hpos. destruct IH as (i & g & Hi & Hg); [lia |]. by exists (S i), g.
Qed.

Lemma count_unique (P : Goroutine -> bool) (gs : list Goroutine) (i j : nat)
    (g g' : Goroutine) :
  (count P gs <= 1)%nat ->
  gs !! i = Some g -> gs !! j = Some g' -> P g = true -> P g' = true -> i = j.
Proof.
  revert i j. induction gs as [| x gs IH]; intros i j Hle Hi Hj Hg Hg'; [done |].
  rewrite count_cons in Hle.
  destruct i as [| i], j as [| j]; simpl in *; [done | | |].
  - injection Hi as ->. rewrite Hg in Hle. pose proof (count_pos P gs j g' Hj Hg'). lia.
  - injection Hj as ->. rewrite Hg' in Hle. pose proof (count_pos P gs i g Hi Hg). lia.
  - f_equal. apply IH; try done. destruct (P x); lia.
Qed.

Lemma count_none (P : Goroutine -> bool) (gs : list Goroutine) (i : nat) (g : Goroutine) :
  count P gs = 0%nat -> gs !! i = Some g -> P g = false.
Proof.
  revert i. induction gs as [| x gs IH]; intros i Hz Hi; [done |].
  rewrite count_cons in Hz. destruct i as [| i]; simpl in Hi.
  - injection Hi as ->. destruct (P g); [lia | done].
  - apply (IH i); [lia | done].
Qed.

Lemma count_resolvers (ids : list SupportedBackend) :
  count holds_read (resolvers ids) = 0%nat /\ count holds_write (resolvers ids) = 0%nat.
Proof.
  induction ids as [| id ids [IHr IHw]]; [done |].
  simpl. by rewrite !count_cons, IHr, IHw.
Qed.

Lemma mu_set_field (backend : SupportedBackend) (b : Backend) (w : World E) :
  mu (backends (set_field E backend b w)) = mu (backends w).
Proof. unfold set_field. by case_bool_decide. Qed.

(** One statement of one goroutine keeps the mutex and the goroutines
    in agreement. *)
Lemma goroutine_step_mutex (w w' : World E) (gs : list Goroutine) (i : nat)
    (g g' : Goroutine) :
  gs !! i = Some g ->
  goroutine_step E g w = Some (w', g') ->
  mutex_inv E (w, gs) -> mutex_inv E (w', <[i := g']> gs).
Proof.
  intros Hi Hstep (Hr & Hw & Hex). simpl in *.
  pose proof (count_insert holds_read gs i g g' Hi) as Cr.
  pose proof (count_insert holds_write gs i g g' Hi) as Cw.
  unfold mutex_inv. simpl.
  unfold goroutine_step in Hstep.
  change (holds_read g)
    with (match at_ g with at_read | at_RUnlock _ => true | _ => false end) in Cr.
  change (holds_write g)
    with (match at_ g with at_store | at_return _ => true | _ => false end) in Cw.
  destruct (at_ g) as [| | r | r | | | r | r] eqn:Hat.
  - destruct (bool_decide (resolving g = YFinBackend) || bool_decide (resolving g = BATSBackend)).
    + destruct (writer (mu (backends w))) eqn:Hwr; [done |].
      injection Hstep as <- <-. simpl in *. rewrite ?Hwr.
      split; [lia |]. split; [lia | done].
    + injection Hstep as <- <-. simpl in *.
      split; [lia |]. split; [lia |]. intros Hwt. specialize (Hex Hwt). lia.
  - injection Hstep as <- <-. simpl in *.
    split; [lia |]. split; [lia |]. intros Hwt. specialize (Hex Hwt). lia.
  - injection Hstep as <- <-. simpl in *.
    split; [lia |]. split; [lia |]. intros Hwt. specialize (Hex Hwt). lia.
  - case_bool_decide; injection Hstep as <- <-; simpl in *;
      (split; [lia |]; split; [lia |]; intros Hwt; specialize (Hex Hwt); lia).
  - destruct (writer (mu (backends w))) eqn:Hwr; [done |].
    destruct (readers (mu (backends w)) =? 0)%nat eqn:Hz; [| done].
    apply Nat.eqb_eq in Hz. injection Hstep as <- <-. simpl in *.
    split; [lia |]. split; [lia |]. intros _. lia.
  - simpl in Hstep. injection Hstep as <- <-. rewrite mu_set_field. simpl in *.
    split; [lia |]. split; [lia |]. intros Hwt. specialize (Hex Hwt). lia.
  - injection Hstep as <- <-. simpl in *.
    destruct (writer (mu (backends w))); split; try lia; split; try lia; done.
  - done.
Qed.

Lemma schedule1_mutex (i : nat) (sys : World E * list Goroutine) :
  mutex_inv E sys -> mutex_inv E (schedule1 E i sys).
Proof.
  destruct sys as [w gs]. intros Hinv. unfold schedule1.
  destruct (gs !! i) as [g |] eqn:Hi; [| done].
  destruct (goroutine_step E g w) as [[w' g'] |] eqn:Hstep; [| done].
  by eapply goroutine_step_mutex.
Qed.

Lemma run_mutex (schedule : list nat) (sys : World E * list Goroutine) :
  mutex_inv E sys -> mutex_inv E (run E schedule sys).
Proof.
  revert sys. unfold run.
  induction schedule as [| i schedule IH]; intros sys Hinv; [done |].
  simpl. apply IH. by apply schedule1_mutex.
Qed.

Lemma resolvers_mutex (w0 : World E) (ids : list SupportedBackend) :
  mu (backends w0) = {| readers := 0; writer := false |} ->
  mutex_inv E (w0, resolvers ids).
Proof.
  intros Hmu. unfold mutex_inv. simpl. rewrite Hmu. simpl.
  destruct (count_resolvers ids) as [-> ->]. done.
Qed.

(** X16.  Mutual exclusion.  When goroutines enter [GetBackend] with the
    mutex free, then under every schedule at most one goroutine is
    between [Lock] and its return, where the entry is written; and while
    one is there, no goroutine is between [RLock] and [RUnlock], where
    the entry is read.  So no write of an entry runs together with
    another access to it. *)
Theorem GetBackend_mutual_exclusion (w0 : World E) (ids : list SupportedBackend)
    (schedule : list nat) (i j : nat) (g g' : Goroutine) :
  mu (backends w0) = {| readers := 0; writer := false |} ->
  (run E schedule (w0, resolvers ids)).2 !! i = Some g ->
  (run E schedule (w0, resolvers ids)).2 !! j = Some g' ->
  holds_write g = true ->
  (holds_write g' = true -> i = j) /\ holds_read g' = false.
Proof.
  intros Hmu Hi Hj Hg.
  pose proof (run_mutex schedule _ (resolvers_mutex w0 ids Hmu)) as (Hr & Hw & Hex).
  destruct (run E schedule (w0, resolvers ids)) as [w gs]. simpl in *.
  pose proof (count_pos holds_write gs i g Hi Hg) as Hpos.
  destruct (writer (mu (backends w))) eqn:Hwr; [| lia].
  split.
  - intros Hg'. apply (count_unique holds_write gs i j g g'); try done. lia.
  - apply (count_none holds_read gs j g'); [by apply Hex | done].
Qed.

End mutex_more.

(** ** The registry, several goroutines: every resolve returns *)

Section progress_more.

Variable E : Env.

Lemma work_left_insert (gs : list Goroutine) (i : nat) (g g' : Goroutine) :
  gs !! i = Some g ->
  (work_left (<[i := g']> gs) + steps_left g = work_left gs + steps_left g')%nat.
Proof.
  unfold work_left. revert i. induction gs as [| x gs IH]; intros i Hi; [done |].
  destruct i as [| i]; simpl in *.
  - injection Hi as ->. lia.
  - specialize (IH i Hi). lia.
Qed.

(** A statement brings a goroutine closer to its return. *)
Lemma goroutine_step_less (g g' : Goroutine) (w w' : World E) :
  goroutine_step E g w = Some (w', g') -> (steps_left g' < steps_left g)%nat.
Proof.
  unfold goroutine_step, steps_left. intros Hstep.
  destruct (at_ g) as [| | r | r | | | r | r]; simpl in Hstep;
    repeat case_match; simplify_eq; simpl; lia.
Qed.

Lemma work_left_resolvers (ids : list SupportedBackend) :
  work_left (resolvers ids) = (7 * length ids)%nat.
Proof.
  unfold work_left. induction ids as [| id ids IH]; [done |].
  simpl in *. rewrite IH. lia.
Qed.

Lemma schedule1_work (i : nat) (sys : World E * list Goroutine) :
  (work_left (schedule1 E i sys).2 <= work_left sys.2)%nat.
Proof.
  destruct sys as [w gs]. unfold schedule1.
  destruct (gs !! i) as [g |] eqn:Hi; [| done].
  destruct (goroutine_step E g w) as [[w' g'] |] eqn:Hstep; [| done].
  simpl. pose proof (work_left_insert gs i g g' Hi).
  pose proof (goroutine_step_less g g' w w' Hstep). lia.
Qed.

Lemma run_work (schedule : list nat) (sys : World E * list Goroutine) :
  (work_left (run E schedule sys).2 <= work_left sys.2)%nat.
Proof.
  revert sys. unfold run.
  induction schedule as [| i schedule IH]; intros sys; [done |].
  simpl. etrans; [apply IH | apply schedule1_work].
Qed.

(** No deadlock: while a goroutine has not returned, one can move. *)
Lemma mutex_progress (w : World E) (gs : list Goroutine) :
  mutex_inv E (w, gs) ->
  ~ all_returned gs ->
  exists i g w' g', gs !! i = Some g /\ goroutine_step E g w = Some (w', g').
Proof.
  intros (Hr & Hw & Hex) Hnot. simpl in *.
  destruct (writer (mu (backends w))) eqn:Hwr.
  - (* the holder of the write lock moves *)
    destruct (count_exists holds_write gs) as (i & g & Hi & Hg); [lia |].
    exists i, g. unfold holds_write in Hg. unfold goroutine_step.
    destruct (at_ g); try done; simpl; eauto.
  - destruct (decide (count holds_read gs = 0%nat)) as [Hz | Hnz].
    + (* the mutex is free: whoever has not returned moves *)
      apply not_Forall_Exists in Hnot; [| intros g; apply _].
      apply Exists_exists in Hnot as (g & Hin & Hg).
      apply list_elem_of_lookup in Hin as [i Hi].
      assert (~ is_Some (result_of g)) as Hg' by exact Hg. clear Hg.
      exists i, g. unfold goroutine_step, result_of in *. cbv zeta.
      rewrite Hwr, Hr, Hz.
      destruct (at_ g) as [| | r | r | | | r | r]; simpl.
      * destruct (_ || _); eauto.
      * eauto.
      * eauto.
      * case_bool_decide; eauto.
      * eauto.
      * eauto.
      * eauto.
      * exfalso. apply Hg'. eauto.
    + (* a holder of the read lock moves *)
      destruct (count_exists holds_read gs) as (i & g & Hi & Hg); [lia |].
      exists i, g. unfold holds_read in Hg. unfold goroutine_step.
      destruct (at_ g); try done; simpl; eauto.
Qed.

Lemma completion (n : nat) (sys : World E * list Goroutine) :
  mutex_inv E sys ->
  (work_left sys.2 <= n)%nat ->
  exists more, (length more <= n)%nat /\ all_returned (run E more sys).2.
Proof.
  revert sys. induction n as [| n IH]; intros [w gs] Hinv Hle; simpl in *.
  - exists []. split; [done |]. simpl.
    destruct (decide (all_returned gs)) as [| Hnot]; [done |].
    destruct (mutex_progress w gs Hinv Hnot) as (i & g & w' & g' & Hi & Hstep).
    pose proof (work_left_insert gs i g g' Hi).
    pose proof (goroutine_step_less g g' w w' Hstep). lia.
  - destruct (decide (all_returned gs)) as [| Hnot]; [by exists []; split; [simpl; lia |] |].
    destruct (mutex_progress w gs Hinv Hnot) as (i & g & w' & g' & Hi & Hstep).
    destruct (IH (schedule1 E i (w, gs))) as (more & Hlen & Hall).
    + by apply schedule1_mutex.
    + unfold schedule1. rewrite Hi, Hstep. simpl.
      pose proof (work_left_insert gs i g g' Hi).
      pose proof (goroutine_step_less g g' w w' Hstep). lia.
    + exists (i :: more). split; [simpl; lia | done].
Qed.

(** X17.  No deadlock and no livelock.  When goroutines enter
    [GetBackend] with the mutex free, every run can be continued so that
    every goroutine returns, in at most seven statements per goroutine;
    and in a state where some goroutine has not returned, some goroutine
    can run its next statement. *)
Theorem GetBackend_completes (w0 : World E) (ids : list SupportedBackend)
    (schedule : list nat) :
  mu (backends w0) = {| readers := 0; writer := false |} ->
  (exists more,
      (length more <= 7 * length ids)%nat
      /\ all_returned (run E (schedule ++ more) (w0, resolvers ids)).2)
  /\ (~ all_returned (run E schedule (w0, resolvers ids)).2 ->
      exists i g w' g',
        (run E schedule (w0, resolvers ids)).2 !! i = Some g
        /\ goroutine_step E g (run E schedule (w0, resolvers ids)).1 = Some (w', g')).
Proof.
  intros Hmu.
  pose proof (run_mutex E schedule _ (resolvers_mutex E w0 ids Hmu)) as Hinv.
  split.
  - destruct (completion (7 * length ids) (run E schedule (w0, resolvers ids)) Hinv)
      as (more & Hlen & Hall).
    { etrans; [apply run_work |]. simpl. by rewrite work_left_resolvers. }
    exists more. split; [done |]. unfold run in *. by rewrite foldl_app.
  - intros Hnot. destruct (run E schedule (w0, resolvers ids)) as [w gs]. simpl in *.
    by apply mutex_progress.
Qed.

(** *** The entry is set when a resolve has returned *)

Lemma set_inv_mono (backend : SupportedBackend) (w w' : World E) (g : Goroutine) :
  (field E backend w <> nil_backend -> field E backend w' <> nil_backend) ->
  set_inv E backend w g -> set_inv E backend w' g.
Proof.
  intros Hmono. unfold set_inv. destruct (at_ g); try done.
  - intros [? H]. split; [done |]. intros Hg Hr. auto.
  - intros [? H]. split; [done |]. intros Hg Hr. auto.
  - intros [? H]. split; [done |]. intros Hg. destruct (H Hg). auto.
  - intros H Hg. destruct (H Hg). auto.
Qed.

Lemma goroutine_step_set (backend : SupportedBackend) (w w' : World E) (g g' : Goroutine) :
  recognized backend ->
  goroutine_step E g w = Some (w', g') ->
  set_inv E backend w g ->
  set_inv E backend w' g'
  /\ (field E backend w <> nil_backend -> field E backend w' <> nil_backend).
Proof.
  intros Hb Hstep Hg. unfold goroutine_step in Hstep. unfold set_inv in Hg.
  destruct (at_ g) as [| | r | r | | | r | r] eqn:Hat.
  - destruct (bool_decide (resolving g = YFinBackend) || bool_decide (resolving g = BATSBackend))
      eqn:Hrec.
    + destruct (writer (mu (backends w))); [done |].
      injection Hstep as <- <-. rewrite field_set_mu. split; [| done].
      unfold set_inv, recognized. simpl.
      apply orb_true_iff in Hrec as [?%bool_decide_eq_true_1 | ?%bool_decide_eq_true_1]; auto.
    + injection Hstep as <- <-. split; [| done].
      unfold set_inv. simpl. intros Hres.
      apply orb_false_iff in Hrec as [H1%bool_decide_eq_false_1 H2%bool_decide_eq_false_1].
      rewrite Hres in H1, H2. by destruct Hb.
  - injection Hstep as <- <-. split; [| done].
    unfold set_inv. simpl. split; [done |]. by intros ->.
  - injection Hstep as <- <-. rewrite field_set_mu. split; [| done].
    unfold set_inv. simpl. by rewrite field_set_mu.
  - destruct Hg as [? Hr].
    case_bool_decide as Hnil; injection Hstep as <- <-; (split; [| done]);
      unfold set_inv; simpl; [| done].
    intros Hres. split; [done | by apply Hr].
  - destruct (writer (mu (backends w)) || negb (readers (mu (backends w)) =? 0)%nat); [done |].
    injection Hstep as <- <-. rewrite field_set_mu. split; [| done].
    unfold set_inv. by simpl.
  - simpl in Hstep. injection Hstep as <- <-.
    assert (field E backend (set_field E (resolving g) (config_ptr (length (heap w)))
                               (set_heap E (heap w ++ [default_config E (resolving g)
                                                        (base_of (resolving g)) w]) w))
            = if bool_decide (resolving g = backend) then config_ptr (length (heap w))
              else field E backend w) as Hf.
    { rewrite field_set_field by done. case_bool_decide; [done |].
      unfold field. by case_bool_decide. }
    rewrite Hf. split.
    + unfold set_inv. simpl. split; [done |]. intros Hres.
      rewrite Hf, (bool_decide_eq_true_2 _ Hres). done.
    + by case_bool_decide.
  - injection Hstep as <- <-. rewrite field_set_mu. split; [| done].
    unfold set_inv. simpl. rewrite field_set_mu. by destruct Hg.
  - done.
Qed.

Lemma schedule1_set (backend : SupportedBackend) (i : nat) (sys : World E * list Goroutine) :
  recognized backend ->
  Forall (set_inv E backend sys.1) sys.2 ->
  Forall (set_inv E backend (schedule1 E i sys).1) (schedule1 E i sys).2
  /\ (field E backend sys.1 <> nil_backend ->
      field E backend (schedule1 E i sys).1 <> nil_backend).
Proof.
  intros Hb. destruct sys as [w gs]. intros Hinv. unfold schedule1. simpl in *.
  destruct (gs !! i) as [g |] eqn:Hi; [| done].
  destruct (goroutine_step E g w) as [[w' g'] |] eqn:Hstep; [| done].
  assert (set_inv E backend w g) as Hg.
  { rewrite Forall_forall in Hinv. apply Hinv. by eapply list_elem_of_lookup_2. }
  destruct (goroutine_step_set backend w w' g g' Hb Hstep Hg) as [Hg' Hmono].
  simpl. split; [| done]. apply Forall_insert; [| done].
  eapply Forall_impl; [exact Hinv |]. intros g0. by apply set_inv_mono.
Qed.

Lemma run_set (backend : SupportedBackend) (schedule : list nat)
    (sys : World E * list Goroutine) :
  recognized backend ->
  Forall (set_inv E backend sys.1) sys.2 ->
  Forall (set_inv E backend (run E schedule sys).1) (run E schedule sys).2
  /\ (field E backend sys.1 <> nil_backend ->
      field E backend (run E schedule sys).1 <> nil_backend).
Proof.
  intros Hb. revert sys. unfold run.
  induction schedule as [| i schedule IH]; intros sys Hinv; [done |].
  simpl. destruct (schedule1_set backend i sys Hb Hinv) as [Hinv1 Hmono1].
  destruct (IH _ Hinv1) as [Hinv2 Hmono2]. split; [done |]. auto.
Qed.

(** X18.  Under every schedule and from every world, a goroutine that
    has returned from resolving a recognized identifier holds a backend
    that is not [nil], and the entry of the identifier is set from then
    on: a resolve that starts later finds it at the read-locked lookup. *)
Theorem GetBackend_concurrent_not_nil (w0 : World E) (ids : list SupportedBackend)
    (schedule : list nat) (backend : SupportedBackend) (g : Goroutine) (b : Backend) :
  recognized backend ->
  g ∈ (run E schedule (w0, resolvers ids)).2 ->
  resolving g = backend ->
  result_of g = Some b ->
  b <> nil_backend
  /\ forall more, field E backend (run E (schedule ++ more) (w0, resolvers ids)).1
                  <> nil_backend.
Proof.
  intros Hb Hin Hres Hret.
  assert (Forall (set_inv E backend w0) (resolvers ids)) as Hinit.
  { unfold resolvers. apply Forall_map, Forall_forall. by intros id _. }
  destruct (run_set backend schedule (w0, resolvers ids) Hb Hinit) as [Hgs _].
  pose proof Hgs as Hall. rewrite Forall_forall in Hgs. pose proof (Hgs g Hin) as Hg.
  unfold set_inv in Hg. unfold result_of in Hret.
  destruct (at_ g) eqn:Hat; try done. injection Hret as ->.
  destruct (Hg Hres) as [Hnil Hset]. split; [done |].
  intros more.
  destruct (run_set backend more (run E schedule (w0, resolvers ids)) Hb Hall) as [_ Hmono].
  unfold run in *. rewrite foldl_app. by apply Hmono.
Qed.

End progress_more.

Lemma NewBackends_fresh_witness :
  deref stub.env (NewBackends stub.env YFinURL 1%nat (stub.world [])).1
    (YFin (NewBackends stub.env YFinURL 1%nat (stub.world [])).2)
  = Some (default_config stub.env YFinBackend (base_of YFinBackend) (stub.world [])).
Proof.
  destruct (NewBackends_fresh stub.env YFinURL 1%nat (stub.world []))
    as (_ & _ & _ & _ & _ & _ & _ & _ & _ & _ & Hsame).
  exact (proj1 (Hsame eq_refl eq_refl)).
Defined.

Lemma logging_is_a_side_channel_witness :
  quieter stub.env (stub.world [stub.ok 404 "not found"])
    (samples.verbose [stub.ok 404 "not found"])
  /\ (Do stub.env stub.bats stub.quote_request None (stub.world [stub.ok 404 "not found"])).2
     = (Do stub.env stub.bats stub.quote_request None
          (samples.verbose [stub.ok 404 "not found"])).2
  /\ logs (trace (Do stub.env stub.bats stub.quote_request None
                     (stub.world [stub.ok 404 "not found"])).1) = []
  /\ length (logs (trace (Do stub.env stub.bats stub.quote_request None
                             (samples.verbose [stub.ok 404 "not found"])).1)) = 3%nat.
Proof.
  assert (quieter stub.env (stub.world [stub.ok 404 "not found"])
            (samples.verbose [stub.ok 404 "not found"])) as Hq.
  { unfold quieter. simpl. repeat split; try reflexivity. lia. }
  split; [exact Hq |].
  split; [exact (proj1 (proj2 (logging_is_a_side_channel stub.env _ _ Hq))
                   stub.bats stub.quote_request None) |].
  split; reflexivity.
Defined.

Lemma GetBackend_mutual_exclusion_witness :
  (run stub.env [0; 0; 0; 0; 0; 1; 1; 1; 1; 1]%nat
     (stub.world [], resolvers [YFinBackend; YFinBackend])).2 !! 0%nat
  = Some {| resolving := YFinBackend; at_ := at_store |}
  /\ (run stub.env [0; 0; 0; 0; 0; 1; 1; 1; 1; 1]%nat
        (stub.world [], resolvers [YFinBackend; YFinBackend])).2 !! 1%nat
     = Some {| resolving := YFinBackend; at_ := at_switch |}
  /\ holds_write {| resolving := YFinBackend; at_ := at_store |} = true
  /\ holds_read {| resolving := YFinBackend; at_ := at_switch |} = false.
Proof.
  assert ((run stub.env [0; 0; 0; 0; 0; 1; 1; 1; 1; 1]%nat
             (stub.world [], resolvers [YFinBackend; YFinBackend])).2 !! 0%nat
          = Some {| resolving := YFinBackend; at_ := at_store |}) as H0
    by (vm_compute; reflexivity).
  assert ((run stub.env [0; 0; 0; 0; 0; 1; 1; 1; 1; 1]%nat
             (stub.world [], resolvers [YFinBackend; YFinBackend])).2 !! 1%nat
          = Some {| resolving := YFinBackend; at_ := at_switch |}) as H1
    by (vm_compute; reflexivity).
  split; [exact H0 |]. split; [exact H1 |]. split; [reflexivity |].
  exact (proj2 (GetBackend_mutual_exclusion stub.env (stub.world []) [YFinBackend; YFinBackend]
                  [0; 0; 0; 0; 0; 1; 1; 1; 1; 1]%nat 0 1 _ _ eq_refl H0 H1 eq_refl)).
Defined.

Lemma GetBackend_completes_witness :
  exists more,
    (length more <= 14)%nat
    /\ all_returned (run stub.env ([0; 1; 0]%nat ++ more)
                       (stub.world [], resolvers [YFinBackend; YFinBackend])).2.
Proof.
  exact (proj1 (GetBackend_completes stub.env (stub.world []) [YFinBackend; YFinBackend]
                  [0; 1; 0]%nat eq_refl)).
Defined.

Lemma GetBackend_concurrent_not_nil_witness :
  config_ptr 0 <> nil_backend
  /\ field stub.env YFinBackend
       (run stub.env (stub.racy_schedule ++ [0; 1]%nat) (stub.world [], stub.two_resolvers)).1
     <> nil_backend.
Proof.
  assert ({| resolving := YFinBackend; at_ := returned (config_ptr 0) |}
          ∈ (run stub.env stub.racy_schedule
               (stub.world [], resolvers [YFinBackend; YFinBackend])).2) as Hin.
  { assert ((run stub.env stub.racy_schedule
               (stub.world [], resolvers [YFinBackend; YFinBackend])).2
            = [{| resolving := YFinBackend; at_ := returned (config_ptr 0) |};
               {| resolving := YFinBackend; at_ := returned (config_ptr 1) |}]) as ->
      by (vm_compute; reflexivity).
    apply list_elem_of_here. }
  destruct (GetBackend_concurrent_not_nil stub.env (stub.world []) [YFinBackend; YFinBackend]
              stub.racy_schedule YFinBackend _ (config_ptr 0) (or_introl eq_refl) Hin
              eq_refl eq_refl) as [Hnil Hset].
  split; [exact Hnil | exact (Hset [0; 1]%nat)].
Defined.

(** ** The mutex is released; the first yahoo call end to end *)

Section closing_more.

Variable E : Env.

Lemma count_returned (P : Goroutine -> bool) (gs : list Goroutine) :
  (forall g, is_Some (result_of g) -> P g = false) ->
  all_returned gs -> count P gs = 0%nat.
Proof.
  intros HP. induction 1 as [| g gs Hg Hgs IH]; [done |].
  by rewrite count_cons, IH, (HP g Hg).
Qed.

(** X19.  The locks are balanced.  When goroutines enter [GetBackend]
    with the mutex free, then in every state in which all of them have
    returned the mutex is free again: no reader and no writer is left
    holding it, whatever the schedule was and whichever branch each
    goroutine took. *)
Theorem GetBackend_releases_mutex (w0 : World E) (ids : list SupportedBackend)
    (schedule : list nat) :
  mu (backends w0) = {| readers := 0; writer := false |} ->
  all_returned (run E schedule (w0, resolvers ids)).2 ->
  mu (backends (run E schedule (w0, resolvers ids)).1) = {| readers := 0; writer := false |}.
Proof.
  intros Hmu Hall.
  pose proof (run_mutex E schedule _ (resolvers_mutex E w0 ids Hmu)) as (Hr & Hw & _).
  rewrite (count_returned holds_read) in Hr; [| | done].
  2: { intros g [b Hb]. unfold result_of in Hb. unfold holds_read.
       by destruct (at_ g). }
  rewrite (count_returned holds_write) in Hw; [| | done].
  2: { intros g [b Hb]. unfold result_of in Hb. unfold holds_write.
       by destruct (at_ g). }
  destruct (mu (backends (run E schedule (w0, resolvers ids)).1)) as [r wr].
  simpl in *. subst r. by destruct wr.
Qed.

(** The handshake when both GETs get a response and the second body can
    be read: the body is the token, and two requests were sent. *)
Lemma getYahooCrumb_token (client : http.Client) (w w2 : World E) (r1 r2 : http.Request)
    (res : http.Response) (token : string) :
  http_NewRequest E "GET" cookie_url = inr r1 ->
  http_NewRequest E "GET" crumb_url = inr r2 ->
  handshake_step2 E client w = Some (w2, inr res) ->
  http.Body res = http.Bytes token ->
  getYahooCrumb E client w = (w2, (token, None))
  /\ round_trips (trace w2)
     = round_trips (trace w) ++ [(client, setBrowserHeaders r1); (client, setBrowserHeaders r2)].
Proof.
  intros H1 H2. unfold handshake_step2, handshake_step1, getYahooCrumb, http_NewRequest',
    bind, ret. rewrite H1, H2.
  pose proof (Client_Do_frame E client (setBrowserHeaders r1) w) as F1.
  destruct (Client_Do E client (setBrowserHeaders r1) w) as [w1 [e | res1]]; [done |].
  simpl in F1. destruct F1 as (_ & _ & _ & _ & _ & Ht1).
  pose proof (Client_Do_frame E client (setBrowserHeaders r2) w1) as F2.
  destruct (Client_Do E client (setBrowserHeaders r2) w1) as [w2' [e | res2]];
    intros [= <- <-] Hbody; simpl in F2; destruct F2 as (_ & _ & _ & _ & _ & Ht2).
  rewrite Hbody. simpl. split; [done |].
  by rewrite Ht2, Ht1, !round_trips_app, <- app_assoc.
Qed.

(** X20.  The first yahoo call, end to end.  With the cache empty, when
    both GETs of the handshake get a response and the body of the second
    can be read, [Do] makes exactly three round trips, in this order:
    the cookie page, the crumb endpoint, and the caller's request with
    that body added as the crumb.  The body, as it is, is then in the
    cache, whatever the two status codes were. *)
Theorem Do_first_yahoo_call (s : BackendConfiguration) (req : http.Request)
    (v : option (Dest E)) (w w2 : World E) (r1 r2 : http.Request)
    (res : http.Response) (token : string) :
  Type_ s = YFinBackend ->
  yCrumb w = EmptyString ->
  http_NewRequest E "GET" cookie_url = inr r1 ->
  http_NewRequest E "GET" crumb_url = inr r2 ->
  handshake_step2 E (HTTPClient s) (logRequest E req w).1 = Some (w2, inr res) ->
  http.Body res = http.Bytes token ->
  round_trips (trace (Do E s req v w).1)
  = round_trips (trace w)
    ++ [(HTTPClient s, setBrowserHeaders r1);
        (HTTPClient s, setBrowserHeaders r2);
        (HTTPClient s, with_crumb s req token)]
  /\ yCrumb (Do E s req v w).1 = token
  /\ req_out (Do E s req v w).2 = with_crumb s req token.
Proof.
  intros Hs Hc H1 H2 Hstep Hbody.
  destruct (logRequest_frame E req w) as (Hc0 & _ & evs0 & Ht0 & Hr0 & _).
  destruct (getYahooCrumb_token (HTTPClient s) _ w2 r1 r2 res token H1 H2 Hstep Hbody)
    as [Hcrumb Hsent].
  assert (addCrumb E s req (logRequest E req w).1
          = (set_yCrumb E token w2, inr (with_crumb s req token))) as Hadd.
  { rewrite addCrumb_empty by congruence. by rewrite Hcrumb. }
  destruct (Do_sends E s req v w _ _ Hadd) as (Hy & (evs & Ht & Hr) & Hout).
  split; [| by split].
  rewrite Ht, round_trips_app, Hr. simpl. rewrite Hsent, Ht0, round_trips_app, Hr0, app_nil_r.
  by rewrite <- app_assoc.
Qed.

End closing_more.

Lemma GetBackend_releases_mutex_witness :
  all_returned (run stub.env stub.racy_schedule
                  (stub.world [], resolvers [YFinBackend; YFinBackend])).2
  /\ mu (backends (run stub.env stub.racy_schedule
                     (stub.world [], resolvers [YFinBackend; YFinBackend])).1)
     = {| readers := 0; writer := false |}.
Proof.
  assert (all_returned (run stub.env stub.racy_schedule
                          (stub.world [], resolvers [YFinBackend; YFinBackend])).2) as Hall.
  { assert ((run stub.env stub.racy_schedule
               (stub.world [], resolvers [YFinBackend; YFinBackend])).2
            = [{| resolving := YFinBackend; at_ := returned (config_ptr 0) |};
               {| resolving := YFinBackend; at_ := returned (config_ptr 1) |}]) as ->
      by (vm_compute; reflexivity).
    repeat constructor; by eexists. }
  split; [exact Hall |].
  exact (GetBackend_releases_mutex stub.env (stub.world []) [YFinBackend; YFinBackend]
           stub.racy_schedule eq_refl Hall).
Defined.

Lemma Do_first_yahoo_call_witness :
  map (fun sent => (url.Path (http.URL sent.2), url.RawQuery (http.URL sent.2)))
    (round_trips (trace (Do stub.env stub.yahoo stub.quote_request None
                           (stub.world [stub.ok 200 "<html>"; stub.ok 200 "a/b";
                                        stub.ok 200 stub.x1])).1))
  = [(cookie_url, ""); (crumb_url, "");
     ("/v7/finance/quote", "crumb=a%2Fb&symbols=AAPL%2CMSFT")]
  /\ yCrumb (Do stub.env stub.yahoo stub.quote_request None
              (stub.world [stub.ok 200 "<html>"; stub.ok 200 "a/b"; stub.ok 200 stub.x1])).1
     = "a/b".
Proof.
  edestruct (Do_first_yahoo_call stub.env stub.yahoo stub.quote_request None
               (stub.world [stub.ok 200 "<html>"; stub.ok 200 "a/b"; stub.ok 200 stub.x1]))
    as (Hsent & Hy & _);
    [reflexivity | reflexivity | reflexivity | reflexivity | reflexivity | reflexivity |].
  split; [rewrite Hsent; vm_compute; reflexivity | exact Hy].
Defined.
